(** * The multi-agent orchestration client of a2a-mcp-without-framework

    A shallow embedding of
    [samples/a2a-mcp-without-framework/src/no_llm_framework/client/agent.py]:
    the class [Agent] with its methods [get_agents], [call_llm], [decide],
    [extract_agents], [send_message_to_an_agent] and [stream], and the module
    function [stream_llm].

    Python text ([str]) is a Rocq [string]; every [ascii] stands for the code
    point of the same number (the Latin-1 range of Python text).  The
    collaborators the module imports (the language model, the agent card
    resolver, the A2A streaming client, the jinja templates, [json.loads]) are
    fields of the record [World]; the methods of [Agent] are functions over a
    [World] that log what they do to the outside as a list of [event]s. *)

From Stdlib Require Import ZArith Lia Ascii String.
From stdpp Require Import base option list strings gmap.

#[local] Arguments String.append !_ _ / : simpl nomatch.

(** ** Text *)

Module PyStr.

(** Characters that cannot be typed inside a string literal of this file. *)
Definition LF : ascii := "010"%char.
Definition DQUOTE : ascii := "034"%char.

Definition chr (c : ascii) : string := String c EmptyString.

(** [s.startswith(pat)], returning what follows [pat]. *)
Fixpoint strip_prefix (pat s : string) : option string :=
  match pat with
  | EmptyString => Some s
  | String p pat' =>
      match s with
      | EmptyString => None
      | String c s' => if Ascii.eqb p c then strip_prefix pat' s' else None
      end
  end.

(** [s.partition(pat)] for a [pat] that occurs: the text before the leftmost
    occurrence of [pat] and the text after it; [None] when [pat] does not
    occur in [s]. *)
Fixpoint find_sub (pat s : string) : option (string * string) :=
  match strip_prefix pat s with
  | Some rest => Some (EmptyString, rest)
  | None =>
      match s with
      | EmptyString => None
      | String c s' =>
          match find_sub pat s' with
          | Some (pre, rest) => Some (String c pre, rest)
          | None => None
          end
      end
  end.

(** [re.search(opening + '(.*?)' + closing, s, re.DOTALL)], for literal
    [opening] and [closing]: group 1 of the match, or [None] when there is no
    match.  The regex engine tries start positions from the left; at a start
    position the literal [opening] must match, the lazy group then grows one
    character at a time (any character, with DOTALL) until [closing] matches.
    A start position fails only if no [closing] follows it, and then none
    follows any later start either; so the match starts at the leftmost
    [opening] and its group ends at the leftmost [closing] after it. *)
Definition search_between (opening closing s : string) : option string :=
  match find_sub opening s with
  | None => None
  | Some (_, rest) =>
      match find_sub closing rest with
      | None => None
      | Some (group, _) => Some group
      end
  end.

(** [c.isspace()] for a code point below 256: the characters that
    [str.strip()] removes. *)
Definition isspace (c : ascii) : bool :=
  let n := nat_of_ascii c in
  (((9 <=? n) && (n <=? 13)) || ((28 <=? n) && (n <=? 32))
   || (n =? 133) || (n =? 160))%nat.

Fixpoint lstrip (s : string) : string :=
  match s with
  | EmptyString => EmptyString
  | String c s' => if isspace c then lstrip s' else s
  end.

Fixpoint rstrip (s : string) : string :=
  match s with
  | EmptyString => EmptyString
  | String c s' =>
      match rstrip s' with
      | EmptyString => if isspace c then EmptyString else chr c
      | r => String c r
      end
  end.

(** [s.strip()] *)
Definition strip (s : string) : string := rstrip (lstrip s).

End PyStr.

(** ** Python values and exceptions *)

(** A Python [float] as far as this program observes one.  A float produced
    by [json.loads] is kept as the decimal literal it was read from,
    [(-1)^neg * m * 10^e], or is one of the three constants the decoder
    accepts besides ([Infinity], [-Infinity], [NaN]). *)
Inductive pyfloat :=
| FDec (neg : bool) (m : N) (e : Z)
| FInf (neg : bool)
| FNaN.

(** [x == 0.0] for the binary64 number nearest to the literal: the literal
    rounds to zero exactly when its magnitude is at most [2^-1075], half of
    the least subnormal number (a tie goes to the even neighbour, zero). *)
Definition float_is_zero (x : pyfloat) : bool :=
  match x with
  | FDec _ m e =>
      (if e <? 0 then Z.of_N m * 2 ^ 1075 <=? 10 ^ (- e)
       else Z.of_N m =? 0)%Z
  | FInf _ | FNaN => false
  end.

Set Warnings "-register-all".

(** The objects [json.loads] builds.  A [dict] is the list of its items in
    insertion order; the first item with a given key is the binding. *)
Inductive pyvalue :=
| PyNone
| PyBool (b : bool)
| PyInt (z : Z)
| PyFloat (x : pyfloat)
| PyStr (s : string)
| PyList (items : list pyvalue)
| PyDict (items : list (string * pyvalue)).

Inductive exn :=
| JSONDecodeError
| KeyError (key : pyvalue)
| TypeError
| ImportError
| CollaboratorError (what : string).

(** [bool(v)], the test of [if v:] *)
Definition truthy (v : pyvalue) : bool :=
  match v with
  | PyNone => false
  | PyBool b => b
  | PyInt z => negb (z =? 0)%Z
  | PyFloat x => negb (float_is_zero x)
  | PyStr s => negb (String.eqb s EmptyString)
  | PyList items => match items with [] => false | _ => true end
  | PyDict items => match items with [] => false | _ => true end
  end.

(** The items [for x in v] goes through: the elements of a list, the keys of
    a dict, the characters of a str; anything else is not iterable. *)
Definition py_iter (v : pyvalue) : exn + list pyvalue :=
  match v with
  | PyList items => inr items
  | PyDict items => inr (map (fun kv => PyStr (fst kv)) items)
  | PyStr s => inr (map (fun c => PyStr (PyStr.chr c)) (list_ascii_of_string s))
  | PyNone | PyBool _ | PyInt _ | PyFloat _ => inl TypeError
  end.

Fixpoint dict_get (items : list (string * pyvalue)) (key : string)
  : option pyvalue :=
  match items with
  | [] => None
  | (k, v) :: items' => if String.eqb k key then Some v else dict_get items' key
  end.

(** [v[key]] for a str [key]: a dict is looked up, a list or a str wants an
    integer index, the other values are not subscriptable. *)
Definition py_getitem (v : pyvalue) (key : string) : exn + pyvalue :=
  match v with
  | PyDict items =>
      match dict_get items key with
      | Some x => inr x
      | None => inl (KeyError (PyStr key))
      end
  | _ => inl TypeError
  end.

(** ** The A2A types the client inspects

    The classes of [a2a.types] that [send_message_to_an_agent] tests with
    [isinstance] and [hasattr], with the fields it reads.  Fields the client
    never reads are kept as opaque text. *)

Record AgentCard := { card_name : string; card_url : string; card_about : string }.

Inductive Part :=
| TextPart (text : string)
| FilePart (file : string)
| DataPart (data : string).

Record Message := { parts : list Part; messageId : string }.

Record TaskStatus := { state : string; message : option Message }.

Inductive StreamResult :=
| ResultTask (id : string)
| ResultMessage (m : Message)
| TaskStatusUpdateEvent (status : TaskStatus)
| TaskArtifactUpdateEvent (artifact : string).

Inductive SendStreamingMessageResponse :=
| SendStreamingMessageSuccessResponse (result : StreamResult)
| JSONRPCErrorResponse (code : Z) (error : string).

(** ** The agent object and what it records *)

Inductive Mode := Complete | Stream.

(** [token_stream_callback] is [true] when a callable was given: the program
    only tests it and calls it. *)
Record Agent := {
  mode : Mode;
  token_stream_callback : bool;
  agent_urls : option (list string)
}.

(** [Agent.__init__], with [None] for an argument left at its default.  The
    argument [agent_prompt] is accepted and not stored. *)
Definition Agent_init (mode : option Mode) (token_stream_callback : bool)
    (agent_urls : option (list string)) (agent_prompt : option string) : Agent :=
  {| mode := default Stream mode;
     token_stream_callback := token_stream_callback;
     agent_urls := agent_urls |}.

(** One entry of [agent_answers]: the dict with keys name, prompt, answer. *)
Record AgentAnswer := {
  ans_name : string;
  ans_prompt : pyvalue;
  ans_answer : string
}.

(** What a run does to the outside, in order: a chunk yielded to the
    consumer of [stream]; a call of [token_stream_callback]; a request for
    an agent card; a call of [call_llm], which starts a completion stream;
    the opening of a streaming request to an agent. *)
Inductive event :=
| Yielded (chunk : string)
| Callback (chunk : string)
| CardRequest (url : string)
| CallLLM (prompt : string)
| AgentRequest (card : AgentCard) (message : pyvalue).

(** ** The collaborators

    A finite stream is the list of its items and the exception that ends it,
    if one does.  The first argument of a collaborator is the round of the
    loop that calls it, the second argument of [send_message_streaming] the
    position of the selection in that round: two calls need not answer alike. *)
Definition generator (A : Type) : Type := (list A * option exn)%type.

(** [json.loads]; the three jinja templates, by what they are rendered
    from; [A2ACardResolver.get_agent_card]; [genai.GenerativeModel], absent
    from an old package, with its [generate_content]; and
    [A2AClient.send_message_streaming]. *)
Record World := {
  json_loads : string -> exn + pyvalue;
  agents_template : list AgentCard -> string;
  agent_answer_template : list AgentAnswer -> string;
  decide_template : string -> string -> string -> string;
  get_agent_card : nat -> string -> exn + AgentCard;
  GenerativeModel : option (nat -> string -> generator string);
  send_message_streaming :
    nat -> nat -> AgentCard -> pyvalue -> generator SendStreamingMessageResponse
}.

(** ** Running a method: the events so far and a result or an exception *)

Definition M (A : Type) : Type := (list event * (exn + A))%type.

Definition ret {A} (a : A) : M A := ([], inr a).
Definition raise {A} (e : exn) : M A := ([], inl e).
Definition tell (evs : list event) : M unit := (evs, inr tt).
Definition lift {A} (x : exn + A) : M A := ([], x).

Definition bind {A B} (m : M A) (k : A -> M B) : M B :=
  match m with
  | (evs, inl e) => (evs, inl e)
  | (evs, inr a) => let '(evs', x) := k a in (evs ++ evs', x)
  end.

Notation "x <- m ;; k" := (bind m (fun x => k))
  (at level 100, m at next level, right associativity).
Notation "m ;;; k" := (bind m (fun _ => k))
  (at level 100, right associativity).

Definition events {A} (m : M A) : list event := fst m.
Definition outcome {A} (m : M A) : exn + A := snd m.

(** ** The methods of [Agent] *)

Section AgentMethods.

Variable W : World.
Variable self : Agent.

(** [asyncio.gather] over the card requests: every request is issued; the
    results come back in the order of the requests, or the exception of the
    first request in that order that failed. *)
Fixpoint gather (results : list (exn + AgentCard)) : exn + list AgentCard :=
  match results with
  | [] => inr []
  | inl e :: _ => inl e
  | inr card :: results' =>
      match gather results' with
      | inl e => inl e
      | inr cards => inr (card :: cards)
      end
  end.

(** The dict comprehension [{agent_card.name: agent_card for ...}]: a later
    card replaces an earlier one of the same name. *)
Definition registry_of (agent_cards : list AgentCard) : gmap string AgentCard :=
  foldl (fun reg card => <[card_name card := card]> reg) ∅ agent_cards.

Definition get_agents (round : nat) : M (gmap string AgentCard * string) :=
  match agent_urls self with
  | None | Some [] => ret (∅, EmptyString)
  | Some urls =>
      tell (map CardRequest urls) ;;;
      agent_cards <- lift (gather (map (get_agent_card W round) urls)) ;;
      ret (registry_of agent_cards, agents_template W agent_cards)
  end.

(** [stream_llm]: a generator; its body runs when [stream] starts to iterate
    over it. *)
Definition stream_llm (round : nat) (prompt : string) : generator string :=
  match GenerativeModel W with
  | Some generate_content => generate_content round prompt
  | None => ([], Some ImportError)
  end.

Definition call_llm (round : nat) (prompt : string) : generator string :=
  stream_llm round prompt.

(** [decide] renders the prompt and hands back the generator of [call_llm];
    the rendered prompt is returned with it for the log. *)
Definition decide (round : nat) (question agents_prompt : string)
    (called_agents : list AgentAnswer) : string * generator string :=
  let call_agent_prompt :=
    match called_agents with
    | [] => EmptyString
    | _ => agent_answer_template W called_agents
    end in
  let prompt := decide_template W question agents_prompt call_agent_prompt in
  (prompt, call_llm round prompt).

Definition json_fence_open : string := "```json" +:+ PyStr.chr PyStr.LF.
Definition json_fence_close : string := PyStr.chr PyStr.LF +:+ "```".

Definition extract_agents (response : string) : exn + pyvalue :=
  match PyStr.search_between json_fence_open json_fence_close response with
  | Some group1 => json_loads W group1
  | None => inr (PyList [])
  end.

(** [hasattr(part.root, 'text')]: of the three kinds of part only a text part
    has a field of that name. *)
Definition hasattr_text (p : Part) : bool :=
  match p with TextPart _ => true | FilePart _ | DataPart _ => false end.

(** What one event of the agent's stream makes [send_message_to_an_agent]
    yield. *)
Definition chunk_yield (chunk : SendStreamingMessageResponse) : list string :=
  match chunk with
  | SendStreamingMessageSuccessResponse (TaskStatusUpdateEvent status) =>
      match message status with
      | Some msg =>
          match parts msg with
          | part0 :: _ =>
              if hasattr_text part0 then
                match part0 with
                | TextPart text => [text]
                | _ => []
                end
              else []
          | [] => []
          end
      | None => []
      end
  | _ => []
  end.

Definition send_message_to_an_agent (round pos : nat) (agent_card : AgentCard)
    (message : pyvalue) : generator string :=
  let '(chunks, err) := send_message_streaming W round pos agent_card message in
  (concat (map chunk_yield chunks), err).

(** The body of both [for chunk in ...] loops of [stream]: add the chunk to
    the text so far, call the callback if there is one, yield the chunk. *)
Fixpoint forward_chunks (chunks : list string) (acc : string) : M string :=
  match chunks with
  | [] => ret acc
  | chunk :: chunks' =>
      tell (if token_stream_callback self then [Callback chunk] else []) ;;;
      tell [Yielded chunk] ;;;
      forward_chunks chunks' (acc +:+ chunk)
  end.

(** Iterating a generator to its end: the exception that ends it, if any, is
    raised after its last chunk was forwarded. *)
Definition drain (g : generator string) : M string :=
  text <- forward_chunks (fst g) EmptyString ;;
  match snd g with
  | Some e => raise e
  | None => ret text
  end.

(** [agents_registry[name]]: the keys are str, so a hashable [name] that is
    not a str is a missing key, and a list or dict cannot be hashed. *)
Definition registry_getitem (agents_registry : gmap string AgentCard)
    (name : pyvalue) : exn + (string * AgentCard) :=
  match name with
  | PyStr n =>
      match agents_registry !! n with
      | Some card => inr (n, card)
      | None => inl (KeyError name)
      end
  | PyList _ | PyDict _ => inl TypeError
  | PyNone | PyBool _ | PyInt _ | PyFloat _ => inl (KeyError name)
  end.

Definition agent_begin (name : string) : string :=
  "<Agent name=" +:+ PyStr.chr PyStr.DQUOTE +:+ name +:+ PyStr.chr PyStr.DQUOTE
  +:+ ">" +:+ PyStr.chr PyStr.LF.
Definition agent_end : string := "</Agent>" +:+ PyStr.chr PyStr.LF.

(** The answer recorded for a complete agent response. *)
Definition answer_of (agent_response : string) : string :=
  match PyStr.search_between "<Answer>" "</Answer>" agent_response with
  | Some group1 => PyStr.strip group1
  | None => agent_response
  end.

(** The body of [for agent in agents]. *)
Definition dispatch (round pos : nat) (agents_registry : gmap string AgentCard)
    (agent : pyvalue) : M AgentAnswer :=
  name <- lift (py_getitem agent "name") ;;
  entry <- lift (registry_getitem agents_registry name) ;;
  tell [Yielded (agent_begin (fst entry))] ;;;
  prompt <- lift (py_getitem agent "prompt") ;;
  tell [AgentRequest (snd entry) prompt] ;;;
  agent_response <- drain (send_message_to_an_agent round pos (snd entry) prompt) ;;
  tell [Yielded agent_end] ;;;
  ret {| ans_name := fst entry; ans_prompt := prompt;
         ans_answer := answer_of agent_response |}.

Fixpoint dispatch_all (round pos : nat) (agents_registry : gmap string AgentCard)
    (agents : list pyvalue) (agent_answers : list AgentAnswer)
  : M (list AgentAnswer) :=
  match agents with
  | [] => ret agent_answers
  | agent :: agents' =>
      answer <- dispatch round pos agents_registry agent ;;
      dispatch_all round (S pos) agents_registry agents'
        (agent_answers ++ [answer])
  end.

(** The first half of the body of [for _ in range(3)]: load the directory,
    ask for a decision and forward its chunks; the directory and the whole
    decision text are what the second half works with. *)
Definition deciding (question : string) (round : nat)
    (agent_answers : list AgentAnswer) : M (gmap string AgentCard * string) :=
  loaded <- get_agents round ;;
  let '(agents_registry, agent_prompt) := loaded in
  let '(prompt, g) := decide round question agent_prompt agent_answers in
  tell [CallLLM prompt] ;;;
  response <- drain g ;;
  ret (agents_registry, response).

(** One pass through the body of [for _ in range(3)]: [Some] of the answers
    so far when the loop goes on, [None] when the body executes [return]. *)
Definition stream_round (question : string) (round : nat)
    (agent_answers : list AgentAnswer) : M (option (list AgentAnswer)) :=
  decided <- deciding question round agent_answers ;;
  let '(agents_registry, response) := decided in
  agents <- lift (extract_agents response) ;;
  if truthy agents then
    items <- lift (py_iter agents) ;;
    agent_answers' <- dispatch_all round 0 agents_registry items agent_answers ;;
    ret (Some agent_answers')
  else ret None.

Fixpoint stream_rounds (question : string) (rounds : list nat)
    (agent_answers : list AgentAnswer) : M unit :=
  match rounds with
  | [] => ret tt
  | round :: rounds' =>
      next <- stream_round question round agent_answers ;;
      match next with
      | Some agent_answers' => stream_rounds question rounds' agent_answers'
      | None => ret tt
      end
  end.

Definition stream (question : string) : M unit :=
  stream_rounds question (seq 0 3) [].

End AgentMethods.

(** ** A reference decoder for [json.loads]

    The grammar of CPython's [json.decoder] and [json.scanner] over text in
    the Latin-1 range: whitespace, the three names, numbers, strings in
    strict mode, arrays and objects.  It departs from CPython in three
    corners: a [\u] escape for a code point above 255 has no counterpart in
    [string] and is reported as a decoding error; nesting is never too deep
    for it; an integer literal is converted whatever its length.  It gives
    the field [json_loads] of the concrete worlds below. *)

Module JsonRef.

Definition BACKSLASH : ascii := "092"%char.

Definition is_ws (c : ascii) : bool :=
  let n := nat_of_ascii c in ((n =? 32) || (n =? 9) || (n =? 10) || (n =? 13))%nat.

Fixpoint skip_ws (s : string) : string :=
  match s with
  | String c s' => if is_ws c then skip_ws s' else s
  | EmptyString => EmptyString
  end.

Definition digit_of (c : ascii) : option N :=
  let n := N_of_ascii c in
  if ((48 <=? n) && (n <=? 57))%N then Some (n - 48)%N else None.

Definition hex_of (c : ascii) : option N :=
  let n := N_of_ascii c in
  if ((48 <=? n) && (n <=? 57))%N then Some (n - 48)%N
  else if ((65 <=? n) && (n <=? 70))%N then Some (n - 55)%N
  else if ((97 <=? n) && (n <=? 102))%N then Some (n - 87)%N
  else None.

(** The table [BACKSLASH] of the decoder: the character an escape letter
    stands for. *)
Definition unescape (c : ascii) : option ascii :=
  if Ascii.eqb c PyStr.DQUOTE then Some PyStr.DQUOTE
  else if Ascii.eqb c BACKSLASH then Some BACKSLASH
  else if Ascii.eqb c "/" then Some "/"%char
  else if Ascii.eqb c "b" then Some "008"%char
  else if Ascii.eqb c "f" then Some "012"%char
  else if Ascii.eqb c "n" then Some "010"%char
  else if Ascii.eqb c "r" then Some "013"%char
  else if Ascii.eqb c "t" then Some "009"%char
  else None.

Definition hex4 (h1 h2 h3 h4 : ascii) : option N :=
  match hex_of h1, hex_of h2, hex_of h3, hex_of h4 with
  | Some a, Some b, Some c, Some d => Some (((a * 16 + b) * 16 + c) * 16 + d)%N
  | _, _, _, _ => None
  end.

Definition cons_to (c : ascii) (r : option (string * string))
  : option (string * string) :=
  match r with
  | Some (str, rest) => Some (String c str, rest)
  | None => None
  end.

(** [scanstring], entered after the opening quote: the decoded text and what
    follows the closing quote. *)
Fixpoint scanstring (s : string) : option (string * string) :=
  match s with
  | EmptyString => None
  | String c s' =>
      if Ascii.eqb c PyStr.DQUOTE then Some (EmptyString, s')
      else if Ascii.eqb c BACKSLASH then
        match s' with
        | EmptyString => None
        | String esc s'' =>
            if Ascii.eqb esc "u" then
              match s'' with
              | String h1 (String h2 (String h3 (String h4 t))) =>
                  match hex4 h1 h2 h3 h4 with
                  | Some n =>
                      if (n <? 256)%N then cons_to (ascii_of_N n) (scanstring t)
                      else None
                  | None => None
                  end
              | _ => None
              end
            else
              match unescape esc with
              | Some ch => cons_to ch (scanstring s'')
              | None => None
              end
        end
      else if (nat_of_ascii c <? 32)%nat then None
      else cons_to c (scanstring s')
  end.

(** The longest run of decimal digits at the head of [s], most significant
    first, and what follows it. *)
Fixpoint take_digits (s : string) : list N * string :=
  match s with
  | EmptyString => ([], EmptyString)
  | String c s' =>
      match digit_of c with
      | Some d => let '(ds, rest) := take_digits s' in (d :: ds, rest)
      | None => ([], s)
      end
  end.

Definition digits_value (ds : list N) : N :=
  foldl (fun acc d => (acc * 10 + d)%N) 0%N ds.

(** The integer part of [NUMBER_RE]: a single 0, or a nonzero digit and the
    digits after it. *)
Definition scan_int_part (s : string) : option (list N * string) :=
  match s with
  | EmptyString => None
  | String c s' =>
      match digit_of c with
      | Some 0%N => Some ([0%N], s')
      | Some d => let '(ds, rest) := take_digits s' in Some (d :: ds, rest)
      | None => None
      end
  end.

(** The optional fraction: a dot and at least one digit. *)
Definition scan_frac (s : string) : option (list N) * string :=
  match s with
  | String c s' =>
      if Ascii.eqb c "." then
        match take_digits s' with
        | ([], _) => (None, s)
        | (ds, rest) => (Some ds, rest)
        end
      else (None, s)
  | EmptyString => (None, s)
  end.

(** The optional exponent: e or E, an optional sign, at least one digit. *)
Definition scan_exp (s : string) : option Z * string :=
  match s with
  | String c s' =>
      if Ascii.eqb c "e" || Ascii.eqb c "E" then
        let '(neg, s'') :=
          match s' with
          | String sg t =>
              if Ascii.eqb sg "-" then (true, t)
              else if Ascii.eqb sg "+" then (false, t)
              else (false, s')
          | EmptyString => (false, s')
          end in
        match take_digits s'' with
        | ([], _) => (None, s)
        | (ds, rest) =>
            let v := Z.of_N (digits_value ds) in
            (Some (if neg then (- v)%Z else v), rest)
        end
      else (None, s)
  | EmptyString => (None, s)
  end.

(** [NUMBER_RE.match] and the conversion of what it matched: an [int] when
    there is neither fraction nor exponent, else a [float]. *)
Definition scan_number (s : string) : option (pyvalue * string) :=
  let '(neg, s1) :=
    match s with
    | String c t => if Ascii.eqb c "-" then (true, t) else (false, s)
    | EmptyString => (false, s)
    end in
  match scan_int_part s1 with
  | None => None
  | Some (ids, s2) =>
      let '(frac, s3) := scan_frac s2 in
      let '(exp, s4) := scan_exp s3 in
      match frac, exp with
      | None, None =>
          let v := Z.of_N (digits_value ids) in
          Some (PyInt (if neg then (- v)%Z else v), s4)
      | _, _ =>
          let fds := default [] frac in
          Some (PyFloat (FDec neg (digits_value (ids ++ fds))
                           (default 0%Z exp - Z.of_nat (length fds))), s4)
      end
  end.

Definition scan_name (name : string) (v : pyvalue) (s : string)
  : option (pyvalue * string) :=
  match PyStr.strip_prefix name s with
  | Some rest => Some (v, rest)
  | None => None
  end.

(** [dict(pairs)]: a key seen again keeps its place and takes the new value. *)
Fixpoint dict_set (items : list (string * pyvalue)) (key : string) (v : pyvalue)
  : list (string * pyvalue) :=
  match items with
  | [] => [(key, v)]
  | (k, x) :: items' =>
      if String.eqb k key then (k, v) :: items'
      else (k, x) :: dict_set items' key v
  end.

(** [scan_once] with [JSONArray] and [JSONObject]; [fuel] bounds the calls
    in flight.  [array_items] is entered at the first character of an
    element, [object_items] at the opening quote of a key. *)
Fixpoint scan_once (fuel : nat) (s : string) {struct fuel}
  : option (pyvalue * string) :=
  match fuel with
  | 0 => None
  | S fuel' =>
      match s with
      | EmptyString => None
      | String c s' =>
          if Ascii.eqb c PyStr.DQUOTE then
            match scanstring s' with
            | Some (str, rest) => Some (PyStr str, rest)
            | None => None
            end
          else if Ascii.eqb c "{" then
            match skip_ws s' with
            | String c2 s2 =>
                if Ascii.eqb c2 "}" then Some (PyDict [], s2)
                else object_items fuel' (skip_ws s') []
            | EmptyString => None
            end
          else if Ascii.eqb c "[" then
            match skip_ws s' with
            | String c2 s2 =>
                if Ascii.eqb c2 "]" then Some (PyList [], s2)
                else array_items fuel' (skip_ws s') []
            | EmptyString => None
            end
          else if Ascii.eqb c "n" then scan_name "null" PyNone s
          else if Ascii.eqb c "t" then scan_name "true" (PyBool true) s
          else if Ascii.eqb c "f" then scan_name "false" (PyBool false) s
          else
            match scan_number s with
            | Some r => Some r
            | None =>
                if Ascii.eqb c "N" then scan_name "NaN" (PyFloat FNaN) s
                else if Ascii.eqb c "I" then
                  scan_name "Infinity" (PyFloat (FInf false)) s
                else if Ascii.eqb c "-" then
                  scan_name "-Infinity" (PyFloat (FInf true)) s
                else None
            end
      end
  end
with array_items (fuel : nat) (s : string) (acc : list pyvalue) {struct fuel}
  : option (pyvalue * string) :=
  match fuel with
  | 0 => None
  | S fuel' =>
      match scan_once fuel' s with
      | None => None
      | Some (v, rest) =>
          match skip_ws rest with
          | String c r =>
              if Ascii.eqb c "]" then Some (PyList (acc ++ [v]), r)
              else if Ascii.eqb c "," then
                array_items fuel' (skip_ws r) (acc ++ [v])
              else None
          | EmptyString => None
          end
      end
  end
with object_items (fuel : nat) (s : string) (acc : list (string * pyvalue))
  {struct fuel} : option (pyvalue * string) :=
  match fuel with
  | 0 => None
  | S fuel' =>
      match s with
      | EmptyString => None
      | String c s1 =>
          if Ascii.eqb c PyStr.DQUOTE then
            match scanstring s1 with
            | None => None
            | Some (key, rest) =>
                match skip_ws rest with
                | EmptyString => None
                | String c2 r2 =>
                    if Ascii.eqb c2 ":" then
                      match scan_once fuel' (skip_ws r2) with
                      | None => None
                      | Some (v, rest') =>
                          let acc' := dict_set acc key v in
                          match skip_ws rest' with
                          | EmptyString => None
                          | String c3 r3 =>
                              if Ascii.eqb c3 "}" then Some (PyDict acc', r3)
                              else if Ascii.eqb c3 "," then
                                object_items fuel' (skip_ws r3) acc'
                              else None
                          end
                      end
                    else None
                end
            end
          else None
      end
  end.

(** [json.loads]: one value, whitespace around it and nothing else. *)
Definition loads (s : string) : exn + pyvalue :=
  match scan_once (2 * String.length s + 2) (skip_ws s) with
  | Some (v, rest) =>
      match skip_ws rest with
      | EmptyString => inr v
      | String _ _ => inl JSONDecodeError
      end
  | None => inl JSONDecodeError
  end.

End JsonRef.

(** ** Vocabulary of the statements *)

(** [pat] occurs in [s]. *)
Definition occurs (pat s : string) : Prop :=
  exists a b, s = a +:+ pat +:+ b.

(** [s] contains a region delimited by [opening] and [closing]. *)
Definition has_region (opening closing s : string) : Prop :=
  exists a g b, s = a +:+ opening +:+ g +:+ closing +:+ b.

(** [g] is the inner text of the first such region of [s]: no [opening]
    before the one that starts it, no [closing] before the one that ends it. *)
Definition first_region (opening closing s g : string) : Prop :=
  exists a b, s = a +:+ opening +:+ g +:+ closing +:+ b
              /\ ~ occurs opening a /\ ~ occurs closing g.

(** A literal has no border when it cannot overlap a later copy of itself:
    if it starts inside a nonempty [x] that is followed by the literal, it
    lies within [x]. *)
Definition no_border (pat : string) : Prop :=
  forall x rest r, x <> EmptyString ->
    PyStr.strip_prefix pat (x +:+ pat +:+ rest) = Some r ->
    exists x', x = pat +:+ x'.

(** The text a list of chunks adds up to. *)
Definition text_of (chunks : list string) : string :=
  foldr String.append EmptyString chunks.

Definition is_CallLLM (e : event) : bool :=
  match e with CallLLM _ => true | _ => false end.

Definition is_AgentRequest (e : event) : bool :=
  match e with AgentRequest _ _ => true | _ => false end.

(** The events of forwarding one chunk. *)
Definition forwarded (self : Agent) (chunk : string) : list event :=
  (if token_stream_callback self then [Callback chunk] else []) ++ [Yielded chunk].

(** The runs of [dispatch] over [agents], the first at position [pos]. *)
Fixpoint dispatch_runs (W : World) (self : Agent) (round pos : nat)
    (agents_registry : gmap string AgentCard) (agents : list pyvalue)
  : list (M AgentAnswer) :=
  match agents with
  | [] => []
  | agent :: agents' =>
      dispatch W self round pos agents_registry agent
      :: dispatch_runs W self round (S pos) agents_registry agents'
  end.

(** The number of calls of the model among the events of a run. *)
Definition llm_calls {A} (m : M A) : nat :=
  length (List.filter is_CallLLM (events m)).

(** Two worlds that answer alike in the rounds below [n]. *)
Definition agree_below (n : nat) (W W' : World) : Prop :=
  (forall s, json_loads W s = json_loads W' s)
  /\ (forall cards, agents_template W cards = agents_template W' cards)
  /\ (forall answers, agent_answer_template W answers = agent_answer_template W' answers)
  /\ (forall q a c, decide_template W q a c = decide_template W' q a c)
  /\ (forall r url, r < n -> get_agent_card W r url = get_agent_card W' r url)
  /\ (forall r prompt, r < n -> stream_llm W r prompt = stream_llm W' r prompt)
  /\ (forall r pos card msg, r < n ->
        send_message_streaming W r pos card msg
        = send_message_streaming W' r pos card msg).

(** ** Selections as text

    The text [json.dumps] prints for a list of selections whose names and
    prompts need no escape. *)

Definition plain_char (c : ascii) : bool :=
  (32 <=? nat_of_ascii c)%nat
  && negb (Ascii.eqb c PyStr.DQUOTE) && negb (Ascii.eqb c JsonRef.BACKSLASH).

Fixpoint plain_text (s : string) : bool :=
  match s with
  | EmptyString => true
  | String c s' => plain_char c && plain_text s'
  end.

Definition plain_selection (sel : string * string) : bool :=
  plain_text (fst sel) && plain_text (snd sel).

Definition quoted (s : string) : string :=
  String PyStr.DQUOTE (s +:+ PyStr.chr PyStr.DQUOTE).

Definition render_selection (sel : string * string) : string :=
  "{" +:+ quoted "name" +:+ ": " +:+ quoted (fst sel) +:+ ", "
  +:+ quoted "prompt" +:+ ": " +:+ quoted (snd sel) +:+ "}".

Fixpoint render_items (sels : list (string * string)) : string :=
  match sels with
  | [] => EmptyString
  | [sel] => render_selection sel
  | sel :: sels' => render_selection sel +:+ ", " +:+ render_items sels'
  end.

Definition render_selections (sels : list (string * string)) : string :=
  "[" +:+ render_items sels +:+ "]".

Definition selection_object (sel : string * string) : pyvalue :=
  PyDict [("name", PyStr (fst sel)); ("prompt", PyStr (snd sel))].

(** No line feed in [s]. *)
Fixpoint lf_free (s : string) : bool :=
  match s with
  | EmptyString => true
  | String c s' => negb (Ascii.eqb c PyStr.LF) && lf_free s'
  end.

(** ** Concrete worlds *)

Module Demo.

(** Text of the examples: an apostrophe stands for a double quote and a
    vertical bar for a line feed. *)
Definition lit (s : string) : string :=
  string_of_list_ascii
    (map (fun c => if Ascii.eqb c "'" then PyStr.DQUOTE
                   else if Ascii.eqb c "|" then PyStr.LF else c)
       (list_ascii_of_string s)).

Definition echo_url : string := "http://localhost:9999/".
Definition echo_card : AgentCard :=
  {| card_name := "echo"; card_url := echo_url; card_about := "repeats" |}.

Definition text_update (text : string) : SendStreamingMessageResponse :=
  SendStreamingMessageSuccessResponse
    (TaskStatusUpdateEvent
       {| state := "working";
          message := Some {| parts := [TextPart text]; messageId := "m" |} |}).

(** A world that plays a script: [decisions round] is what the model
    streams in that round, [replies round pos] what the agent streams to the
    selection at [pos]; the one reachable endpoint serves [echo_card]. *)
Definition scripted (decisions : nat -> generator string)
    (replies : nat -> nat -> generator SendStreamingMessageResponse) : World :=
  {| json_loads := JsonRef.loads;
     agents_template := fun cards =>
       String.concat ", " (map card_name cards);
     agent_answer_template := fun answers =>
       String.concat "; " (map (fun a => ans_name a +:+ ": " +:+ ans_answer a) answers);
     decide_template := fun question agent_prompt call_agent_prompt =>
       question +:+ " / " +:+ agent_prompt +:+ " / " +:+ call_agent_prompt;
     get_agent_card := fun _ url =>
       if String.eqb url echo_url then inr echo_card
       else inl (CollaboratorError "unreachable");
     GenerativeModel := Some (fun round _ => decisions round);
     send_message_streaming := fun round pos _ _ => replies round pos |}.

Definition client : Agent :=
  Agent_init (Some Stream) false (Some [echo_url]) None.

Definition echo_reply : generator SendStreamingMessageResponse :=
  ([text_update "<Answer> po"; JSONRPCErrorResponse (-32000) "busy";
    text_update "ng </Answer>"], None).

(** The model selects echo in every round it is asked. *)
Definition always_echo : World :=
  scripted
    (fun _ => (["Asking echo."; lit "|```json|[{'name': 'echo', 'prompt': 'hi'}]|```|"], None))
    (fun _ _ => echo_reply).

(** The model opens a fenced block and writes no JSON into it. *)
Definition malformed_text : string := lit "```json|[{|```".
Definition malformed_block : World :=
  scripted (fun _ => ([malformed_text], None)) (fun _ _ => echo_reply).

(** The model selects with objects that lack a field. *)
Definition nameless_text : string := lit "```json|[{'prompt': 'hi'}]|```".
Definition nameless : World :=
  scripted (fun _ => ([nameless_text], None)) (fun _ _ => echo_reply).

Definition promptless_text : string := lit "```json|[{'name': 'echo'}]|```".
Definition promptless : World :=
  scripted (fun _ => ([promptless_text], None)) (fun _ _ => echo_reply).

(** The model selects echo and then an agent nobody registered. *)
Definition ghost_text : string :=
  lit "```json|[{'name': 'echo', 'prompt': 'hi'}, {'name': 'ghost', 'prompt': 'boo'}, {'name': 'echo', 'prompt': 'again'}]|```".
Definition ghost : World :=
  scripted (fun _ => ([ghost_text], None)) (fun _ _ => echo_reply).

(** The model selects echo twice in one block; the agent answers the first
    selection with bare text and the second with an Answer region. *)
Definition twice_text : string :=
  lit "```json|[{'name': 'echo', 'prompt': 'one'}, {'name': 'echo', 'prompt': 'two'}]|```".
Definition twice : World :=
  scripted (fun _ => (["Two questions. "; twice_text], None))
    (fun _ pos =>
       match pos with
       | 0 => ([text_update "first"], None)
       | _ => ([text_update "<Answer>second</Answer>"], None)
       end).

(** The events of one round of [always_echo], and the answer it records. *)
Definition echo_round (prompt : string) : list event :=
  [CardRequest echo_url; CallLLM prompt; Yielded "Asking echo.";
   Yielded (lit "|```json|[{'name': 'echo', 'prompt': 'hi'}]|```|");
   Yielded (agent_begin "echo"); AgentRequest echo_card (PyStr "hi");
   Yielded "<Answer> po"; Yielded "ng </Answer>"; Yielded agent_end].
Definition pong : AgentAnswer :=
  {| ans_name := "echo"; ans_prompt := PyStr "hi"; ans_answer := "pong" |}.

(** As [always_echo] in the rounds 0, 1 and 2; asked in a later round, the
    model would select an agent nobody registered. *)
Definition echo_then_ghost : World :=
  scripted
    (fun round =>
       if (round <? 3)%nat
       then (["Asking echo."; lit "|```json|[{'name': 'echo', 'prompt': 'hi'}]|```|"], None)
       else ([ghost_text], None))
    (fun _ _ => echo_reply).

(** The model answers without a fenced block. *)
Definition plain_answer : World :=
  scripted (fun _ => (["A2A is "; "a protocol."], None)) (fun _ _ => echo_reply).

End Demo.

(** ** The command-line caller *)

(** The block under the test of [__name__]: [main] builds an agent for one
    local endpoint, runs [stream] on a fixed question and prints every chunk
    as it comes, a chunk that starts like a begin marker after
    [colorama.Fore.CYAN], a chunk that starts like an end marker after
    [colorama.Fore.RESET].  The two colour codes are parameters. *)

(** [s.startswith(pat)] *)
Definition startswith (s pat : string) : bool :=
  match PyStr.strip_prefix pat s with
  | Some _ => true
  | None => false
  end.

(** The chunks a run yielded to its consumer, in order. *)
Fixpoint yielded (evs : list event) : list string :=
  match evs with
  | [] => []
  | Yielded chunk :: evs' => chunk :: yielded evs'
  | _ :: evs' => yielded evs'
  end.

Section Main.

Variables Fore_CYAN Fore_RESET : string.

Definition main_agent : Agent :=
  Agent_init (Some Stream) false (Some ["http://localhost:9999/"]) None.

Definition main_question : string := "What is A2A protocol?".

(** What [main] prints for one chunk. *)
Definition main_print (chunk : string) : string :=
  if startswith chunk ("<Agent name=" +:+ PyStr.chr PyStr.DQUOTE)
  then Fore_CYAN +:+ chunk
  else if startswith chunk "</Agent>" then Fore_RESET +:+ chunk
  else chunk.

(** The texts [main] prints, in order, and how the run it drives ends. *)
Definition main (W : World) : list string * (exn + unit) :=
  let run := stream W main_agent main_question in
  (map main_print (yielded (events run)), outcome run).

End Main.

(** ** More vocabulary *)

Definition is_Callback (e : event) : bool :=
  match e with Callback _ => true | _ => false end.

(** A run with the calls of the callback left out of its events. *)
Definition erase_callbacks {A} (m : M A) : M A :=
  (List.filter (fun e => negb (is_Callback e)) (events m), outcome m).

(** The same agent with no callback. *)
Definition without_callback (self : Agent) : Agent :=
  {| mode := mode self; token_stream_callback := false;
     agent_urls := agent_urls self |}.

(** The events of a dispatch that ended normally: the begin marker, the
    request, the fragments forwarded, the end marker. *)
Definition dispatch_block (self : Agent)
    (b : AgentCard * AgentAnswer * list string) : list event :=
  let '(card, rec, chunks) := b in
  Yielded (agent_begin (ans_name rec))
  :: AgentRequest card (ans_prompt rec)
  :: flat_map (forwarded self) chunks ++ [Yielded agent_end].

(** The last card of [cards] that has the name [n]. *)
Definition last_named (n : string) (cards : list AgentCard) : option AgentCard :=
  List.find (fun card => String.eqb (card_name card) n) (rev cards).

Definition is_CardRequest (e : event) : bool :=
  match e with CardRequest _ => true | _ => false end.

(** The endpoints an agent knows, none when it was given none. *)
Definition urls_of (self : Agent) : list string :=
  default [] (agent_urls self).

(** No whitespace at either end of [t]. *)
Definition trimmed (t : string) : Prop :=
  (forall c rest, t = String c rest -> PyStr.isspace c = false)
  /\ (forall init c, t = init +:+ PyStr.chr c -> PyStr.isspace c = false).

(** ** More concrete worlds *)

Module Cases.

Import Demo.

Definition with_model (W : World)
    (model : option (nat -> string -> generator string)) : World :=
  {| json_loads := json_loads W;
     agents_template := agents_template W;
     agent_answer_template := agent_answer_template W;
     decide_template := decide_template W;
     get_agent_card := get_agent_card W;
     GenerativeModel := model;
     send_message_streaming := send_message_streaming W |}.

Definition with_cards (W : World)
    (resolve : nat -> string -> exn + AgentCard) : World :=
  {| json_loads := json_loads W;
     agents_template := agents_template W;
     agent_answer_template := agent_answer_template W;
     decide_template := decide_template W;
     get_agent_card := resolve;
     GenerativeModel := GenerativeModel W;
     send_message_streaming := send_message_streaming W |}.

(** The installed package has no [GenerativeModel]. *)
Definition old_package : World := with_model plain_answer None.

(** The provider fails after one chunk. *)
Definition broken_model : World :=
  scripted (fun _ => (["Let me "], Some (CollaboratorError "provider")))
    (fun _ _ => echo_reply).

(** Three endpoints, the second of them down. *)
Definition down_url : string := "http://localhost:9998/".
Definition three_urls : Agent :=
  Agent_init None false (Some [echo_url; down_url; echo_url]) None.

(** The agent's stream breaks after one fragment. *)
Definition broken_agent : World :=
  scripted
    (fun _ => ([lit "```json|[{'name': 'echo', 'prompt': 'hi'}]|```"], None))
    (fun _ _ => ([text_update "par"], Some (CollaboratorError "connection lost"))).

(** Blocks that hold JSON which is no list of objects. *)
Definition number_block : World :=
  scripted (fun _ => ([lit "```json|42|```"], None)) (fun _ _ => echo_reply).
Definition null_block : World :=
  scripted (fun _ => ([lit "```json|null|```"], None)) (fun _ _ => echo_reply).
Definition object_block : World :=
  scripted (fun _ => ([lit "```json|{'name': 'echo', 'prompt': 'hi'}|```"], None))
    (fun _ _ => echo_reply).
Definition bare_names : World :=
  scripted (fun _ => ([lit "```json|['echo']|```"], None)) (fun _ _ => echo_reply).
Definition numbered_name : World :=
  scripted (fun _ => ([lit "```json|[{'name': 7, 'prompt': 'hi'}]|```"], None))
    (fun _ _ => echo_reply).
Definition listed_name : World :=
  scripted (fun _ => ([lit "```json|[{'name': ['echo'], 'prompt': 'hi'}]|```"], None))
    (fun _ _ => echo_reply).

(** Two endpoints that advertise the same name. *)
Definition mirror_url : string := "http://localhost:9997/".
Definition mirror_card : AgentCard :=
  {| card_name := "echo"; card_url := mirror_url; card_about := "mirror" |}.
Definition mirrored : World :=
  with_cards always_echo
    (fun _ url =>
       if String.eqb url echo_url then inr echo_card
       else if String.eqb url mirror_url then inr mirror_card
       else inl (CollaboratorError "unreachable")).
Definition two_urls : Agent :=
  Agent_init None false (Some [echo_url; mirror_url]) None.

(** A client with a callback, and one without endpoints. *)
Definition watched : Agent :=
  Agent_init (Some Stream) true (Some [echo_url]) None.
Definition alone : Agent := Agent_init None false None None.

End Cases.

(** * Facts *)

#[local] Arguments Ascii.eqb : simpl never.
#[local] Arguments PyStr.strip_prefix !_ !_ /.

(** ** Text *)

Section TextFacts.

Import PyStr.

Lemma app_assoc_s (a b c : string) : (a +:+ b) +:+ c = a +:+ b +:+ c.
Proof. induction a as [|x a IH]; simpl; [reflexivity | now rewrite IH]. Qed.

Lemma app_nil_r_s (a : string) : a +:+ EmptyString = a.
Proof. induction a as [|x a IH]; simpl; [reflexivity | now rewrite IH]. Qed.

Lemma length_app_s (a b : string) :
  String.length (a +:+ b) = String.length a + String.length b.
Proof. induction a as [|x a IH]; simpl; [reflexivity | now rewrite IH]. Qed.

(** Two ways of cutting the same text: the shorter head is a prefix of the
    longer one. *)
Lemma app_split (a b u v : string) :
  a +:+ b = u +:+ v -> String.length a <= String.length u ->
  exists w, u = a +:+ w /\ b = w +:+ v.
Proof.
  revert u. induction a as [|x a IH]; intros u E L.
  - exists u. simpl in *. auto.
  - destruct u as [|y u]; simpl in L; [lia|].
    simpl in E. injection E as -> E.
    destruct (IH u E) as (w & -> & ->); [lia|].
    exists w. auto.
Qed.

Lemma strip_prefix_app (pat rest : string) :
  strip_prefix pat (pat +:+ rest) = Some rest.
Proof.
  induction pat as [|p pat IH]; simpl; [reflexivity|].
  now rewrite Ascii.eqb_refl.
Qed.

Lemma strip_prefix_Some (pat s rest : string) :
  strip_prefix pat s = Some rest -> s = pat +:+ rest.
Proof.
  revert s. induction pat as [|p pat IH]; intros s H.
  - destruct s; simpl in *; congruence.
  - destruct s as [|c s]; [discriminate|]. simpl in H.
    destruct (Ascii.eqb_spec p c) as [->|]; [|discriminate].
    simpl. now rewrite (IH _ H).
Qed.

Lemma find_sub_Some (pat s pre rest : string) :
  find_sub pat s = Some (pre, rest) -> s = pre +:+ pat +:+ rest.
Proof.
  revert pre. induction s as [|c s IH]; intros pre H.
  - simpl in H. destruct (strip_prefix pat EmptyString) eqn:E; [|discriminate].
    injection H as <- <-. simpl. now apply strip_prefix_Some.
  - simpl in H. destruct (strip_prefix pat (String c s)) eqn:E.
    + injection H as <- <-. simpl. now apply strip_prefix_Some.
    + destruct (find_sub pat s) as [[pre' rest']|]; [|discriminate].
      injection H as <- <-. simpl. now rewrite <- (IH pre').
Qed.

(** The occurrence [find_sub] reports is the leftmost one. *)
Lemma find_sub_least (pat s pre rest a b : string) :
  find_sub pat s = Some (pre, rest) -> s = a +:+ pat +:+ b ->
  String.length pre <= String.length a.
Proof.
  revert pre a. induction s as [|c s IH]; intros pre a H E.
  - simpl in H. destruct (strip_prefix pat EmptyString); [|discriminate].
    injection H as <- <-. simpl. lia.
  - simpl in H. destruct (strip_prefix pat (String c s)) eqn:P.
    + injection H as <- <-. simpl. lia.
    + destruct (find_sub pat s) as [[pre' rest']|] eqn:F; [|discriminate].
      injection H as <- <-.
      destruct a as [|x a].
      * simpl in E. rewrite E, strip_prefix_app in P. discriminate.
      * simpl in E. injection E as _ E. simpl.
        specialize (IH pre' a eq_refl E). lia.
Qed.

Lemma find_sub_None (pat s : string) :
  find_sub pat s = None -> ~ occurs pat s.
Proof.
  induction s as [|c s IH]; intros H (a & b & E).
  - simpl in H. destruct a; simpl in E.
    + rewrite E, strip_prefix_app in H. discriminate.
    + discriminate.
  - simpl in H. destruct (strip_prefix pat (String c s)) eqn:P; [discriminate|].
    destruct a as [|x a]; simpl in E.
    + rewrite E, strip_prefix_app in P. discriminate.
    + injection E as _ E.
      destruct (find_sub pat s) as [[? ?]|]; [discriminate|].
      apply IH; [reflexivity|]. now exists a, b.
Qed.

Lemma occurs_find_sub (pat s : string) :
  occurs pat s -> exists pre rest, find_sub pat s = Some (pre, rest).
Proof.
  intros O. destruct (find_sub pat s) as [[pre rest]|] eqn:F; [eauto|].
  now apply find_sub_None in F.
Qed.

(** In front of the leftmost occurrence there is no occurrence. *)
Lemma find_sub_pre_free (pat s pre rest : string) :
  pat <> EmptyString ->
  find_sub pat s = Some (pre, rest) -> ~ occurs pat pre.
Proof.
  intros NE F (a & b & E).
  pose proof (find_sub_Some _ _ _ _ F) as S.
  rewrite E in S. rewrite !app_assoc_s in S.
  pose proof (find_sub_least _ _ _ _ _ _ F S) as L.
  rewrite E, !length_app_s in L.
  destruct pat; [congruence | simpl in L; lia].
Qed.

(** A literal without border is found where it was put, if it does not occur
    before. *)
Lemma find_sub_at (pat x rest : string) :
  no_border pat -> ~ occurs pat x ->
  find_sub pat (x +:+ pat +:+ rest) = Some (x, rest).
Proof.
  intros NB. induction x as [|c x IH]; intros NO.
  - simpl. destruct (pat +:+ rest) eqn:E; simpl;
      rewrite <- E, strip_prefix_app; reflexivity.
  - simpl.
    destruct (strip_prefix pat (String c (x +:+ pat +:+ rest))) eqn:P.
    + destruct (NB (String c x) rest s) as (x' & E); [discriminate|exact P|].
      exfalso. apply NO. exists EmptyString, x'. exact E.
    + rewrite IH; [reflexivity|].
      intros (a & b & E). apply NO. exists (String c a), b. simpl. now rewrite E.
Qed.

Lemma search_between_region (opening closing s g : string) :
  search_between opening closing s = Some g ->
  has_region opening closing s.
Proof.
  unfold search_between. intros H.
  destruct (find_sub opening s) as [[a rest]|] eqn:F1; [|discriminate].
  destruct (find_sub closing rest) as [[g' b]|] eqn:F2; [|discriminate].
  exists a, g', b.
  rewrite (find_sub_Some _ _ _ _ F1), (find_sub_Some _ _ _ _ F2). reflexivity.
Qed.

Lemma search_between_first (opening closing s g : string) :
  opening <> EmptyString -> closing <> EmptyString ->
  search_between opening closing s = Some g ->
  first_region opening closing s g.
Proof.
  unfold search_between. intros NEo NEc H.
  destruct (find_sub opening s) as [[a rest]|] eqn:F1; [|discriminate].
  destruct (find_sub closing rest) as [[g' b]|] eqn:F2; [|discriminate].
  injection H as ->.
  exists a, b. split; [|split].
  - rewrite (find_sub_Some _ _ _ _ F1), (find_sub_Some _ _ _ _ F2). reflexivity.
  - eapply find_sub_pre_free; eauto.
  - eapply find_sub_pre_free; eauto.
Qed.

Lemma first_region_search (opening closing s g : string) :
  no_border opening -> no_border closing ->
  first_region opening closing s g ->
  search_between opening closing s = Some g.
Proof.
  intros NBo NBc (a & b & -> & NOa & NOg). unfold search_between.
  rewrite (find_sub_at opening a _ NBo NOa).
  rewrite (find_sub_at closing g _ NBc NOg). reflexivity.
Qed.

Lemma first_region_has_region (opening closing s g : string) :
  first_region opening closing s g -> has_region opening closing s.
Proof. intros (a & b & E & _). now exists a, g, b. Qed.

Lemma no_region_search (opening closing s : string) :
  ~ has_region opening closing s -> search_between opening closing s = None.
Proof.
  intros NR. destruct (search_between opening closing s) as [g|] eqn:S; [|reflexivity].
  exfalso. apply NR. eapply search_between_region, S.
Qed.

(** A text with a region has a first one, and the search returns it. *)
Lemma has_region_search (opening closing s : string) :
  has_region opening closing s ->
  exists g, search_between opening closing s = Some g.
Proof.
  intros (a & g & b & E). unfold search_between.
  destruct (occurs_find_sub opening s) as (pre & rest & F1);
    [now exists a, (g +:+ closing +:+ b)|].
  rewrite F1.
  pose proof (find_sub_least _ _ _ _ _ _ F1 E) as L.
  pose proof (find_sub_Some _ _ _ _ F1) as S. rewrite E in S.
  symmetry in S. destruct (app_split _ _ _ _ S L) as (w & -> & E2).
  rewrite <- (app_assoc_s w) in E2.
  destruct (app_split _ _ _ _ E2) as (w' & _ & ->);
    [rewrite length_app_s; lia|].
  destruct (occurs_find_sub closing (w' +:+ g +:+ closing +:+ b))
    as (g' & b' & F2).
  { exists (w' +:+ g), b. now rewrite app_assoc_s. }
  rewrite F2. eauto.
Qed.

(** The four literals of the program have no border: each has a character,
    its first or its last, that it holds only once. *)
Ltac no_border_by_cases :=
  let x := fresh "x" in
  let H := fresh "H" in
  intros x ? ? ? H;
  unfold json_fence_open, json_fence_close, chr, LF in H |- *;
  destruct x as [|? x]; [congruence|];
  repeat
    (simpl in H;
     lazymatch type of H with
     | (if Ascii.eqb ?a ?c then _ else _) = Some _ =>
         destruct (Ascii.eqb_spec a c) as [<-|]; [|discriminate]
     end;
     lazymatch type of H with
     | strip_prefix EmptyString _ = Some _ => idtac
     | _ => destruct x as [|? x]; [simpl in H; discriminate|]
     end);
  exists x; reflexivity.

Lemma no_border_json_fence_open : no_border json_fence_open.
Proof. unfold no_border. no_border_by_cases. Qed.

Lemma no_border_json_fence_close : no_border json_fence_close.
Proof. unfold no_border. no_border_by_cases. Qed.

Lemma no_border_answer_open : no_border "<Answer>".
Proof. unfold no_border. no_border_by_cases. Qed.

Lemma no_border_answer_close : no_border "</Answer>".
Proof. unfold no_border. no_border_by_cases. Qed.

End TextFacts.

(** ** Runs *)

Section RunFacts.

Variable W : World.
Variable self : Agent.

Lemma bind_inr {A B} (evs : list event) (a : A) (k : A -> M B) :
  bind (evs, inr a) k = (evs ++ events (k a), outcome (k a)).
Proof. unfold bind, events, outcome. now destruct (k a). Qed.

Lemma bind_inl {A B} (evs : list event) (e : exn) (k : A -> M B) :
  bind (evs, inl e) k = (evs, inl e).
Proof. reflexivity. Qed.

Lemma run_eta {A} (m : M A) : m = (events m, outcome m).
Proof. now destruct m. Qed.

Lemma events_bind {A B} (m : M A) (k : A -> M B) :
  events (bind m k)
  = events m ++ match outcome m with
                | inr a => events (k a)
                | inl _ => []
                end.
Proof.
  destruct m as [evs [e|a]]; simpl.
  - now rewrite app_nil_r.
  - unfold events. now destruct (k a).
Qed.

Lemma forward_chunks_spec (chunks : list string) (acc : string) :
  forward_chunks self chunks acc
  = (flat_map (forwarded self) chunks, inr (acc +:+ text_of chunks)).
Proof.
  revert acc. induction chunks as [|c chunks IH]; intros acc.
  - simpl. now rewrite app_nil_r_s.
  - cbn [forward_chunks]. unfold tell. rewrite !bind_inr, IH. simpl.
    unfold forwarded. rewrite app_assoc_s, <- !app_assoc. reflexivity.
Qed.

Lemma drain_spec (chunks : list string) (err : option exn) :
  drain self (chunks, err)
  = (flat_map (forwarded self) chunks,
     match err with Some e => inl e | None => inr (text_of chunks) end).
Proof.
  unfold drain. simpl. rewrite forward_chunks_spec, bind_inr. simpl.
  destruct err; simpl; now rewrite app_nil_r.
Qed.

(** What a successful deciding phase did: the card requests, one model
    call, and every chunk of the decision forwarded; its text is the whole
    decision. *)
Lemma deciding_inv (question : string) (round : nat)
    (agent_answers : list AgentAnswer) (evs : list event)
    (registry : gmap string AgentCard) (response : string) :
  deciding W self question round agent_answers = (evs, inr (registry, response)) ->
  exists agent_prompt chunks,
    get_agents W self round
    = (events (get_agents W self round), inr (registry, agent_prompt))
    /\ snd (decide W round question agent_prompt agent_answers) = (chunks, None)
    /\ evs = events (get_agents W self round)
             ++ CallLLM (fst (decide W round question agent_prompt agent_answers))
             :: flat_map (forwarded self) chunks
    /\ response = text_of chunks.
Proof.
  unfold deciding. intros H.
  destruct (get_agents W self round) as [ev0 [e|[reg agent_prompt]]] eqn:G;
    [discriminate|].
  rewrite bind_inr in H.
  destruct (decide W round question agent_prompt agent_answers)
    as [prompt [chunks err]] eqn:D.
  unfold tell in H. rewrite bind_inr, drain_spec in H.
  destruct err as [e|]; simpl in H; [discriminate|].
  injection H as <- <- <-.
  exists agent_prompt, chunks. rewrite D. simpl.
  rewrite app_nil_r. auto.
Qed.

Lemma dispatch_all_app (round pos : nat) (registry : gmap string AgentCard)
    (before after : list pyvalue) (answers answers' : list AgentAnswer)
    (evb : list event) :
  dispatch_all W self round pos registry before answers = (evb, inr answers') ->
  dispatch_all W self round pos registry (before ++ after) answers
  = (evb ++ events (dispatch_all W self round (pos + length before) registry
                      after answers'),
     outcome (dispatch_all W self round (pos + length before) registry
                after answers')).
Proof.
  revert pos answers evb. induction before as [|agent before IH];
    intros pos answers evb H.
  - simpl in H. injection H as <- <-. simpl.
    rewrite Nat.add_0_r. apply run_eta.
  - simpl in H |- *.
    destruct (dispatch W self round pos registry agent) as [ev1 [e|answer]];
      [discriminate|].
    rewrite bind_inr in H |- *.
    injection H as <- H.
    rewrite (IH (S pos) (answers ++ [answer])
               (events (dispatch_all W self round (S pos) registry before
                          (answers ++ [answer])))).
    + unfold events, outcome. simpl.
      replace (pos + S (length before)) with (S pos + length before) by lia.
      now rewrite <- app_assoc.
    + rewrite <- H. apply run_eta.
Qed.

(** What the second half of the loop body does with a decided round. *)
Lemma stream_round_decided (question : string) (round : nat)
    (agent_answers : list AgentAnswer) (evs : list event)
    (registry : gmap string AgentCard) (response : string) :
  deciding W self question round agent_answers = (evs, inr (registry, response)) ->
  stream_round W self question round agent_answers
  = match extract_agents W response with
    | inl e => (evs, inl e)
    | inr agents =>
        if truthy agents then
          match py_iter agents with
          | inl e => (evs, inl e)
          | inr items =>
              let run := dispatch_all W self round 0 registry items agent_answers in
              (evs ++ events run,
               match outcome run with
               | inl e => inl e
               | inr agent_answers' => inr (Some agent_answers')
               end)
          end
        else (evs, inr None)
    end.
Proof.
  intros H. unfold stream_round. rewrite H, bind_inr.
  destruct (extract_agents W response) as [e|agents]; simpl.
  - now rewrite app_nil_r.
  - destruct (truthy agents); simpl; [|now rewrite app_nil_r].
    destruct (py_iter agents) as [e|items]; simpl; [now rewrite app_nil_r|].
    destruct (dispatch_all W self round 0 registry items agent_answers)
      as [evd [e|answers']]; simpl; [reflexivity|].
    now rewrite app_nil_r.
Qed.

Lemma stream_rounds_cons (question : string) (round : nat) (rounds : list nat)
    (agent_answers : list AgentAnswer) :
  stream_rounds W self question (round :: rounds) agent_answers
  = match stream_round W self question round agent_answers with
    | (evs, inl e) => (evs, inl e)
    | (evs, inr None) => (evs, inr tt)
    | (evs, inr (Some agent_answers')) =>
        (evs ++ events (stream_rounds W self question rounds agent_answers'),
         outcome (stream_rounds W self question rounds agent_answers'))
    end.
Proof.
  cbn [stream_rounds].
  destruct (stream_round W self question round agent_answers)
    as [evs [e|[answers'|]]].
  - reflexivity.
  - now rewrite bind_inr.
  - rewrite bind_inr. simpl. now rewrite app_nil_r.
Qed.

End RunFacts.

Section DispatchFacts.

Variable W : World.
Variable self : Agent.

Lemma registry_getitem_inv (registry : gmap string AgentCard) (name : pyvalue)
    (entry : string * AgentCard) :
  registry_getitem registry name = inr entry ->
  name = PyStr (fst entry) /\ registry !! fst entry = Some (snd entry).
Proof.
  destruct name as [| | | |n| |]; simpl; try discriminate.
  destruct (registry !! n) as [card|] eqn:L; [|discriminate].
  intros [= <-]. auto.
Qed.

(** A dispatch that ends normally: the selection named a registered agent
    and carried a prompt, the agent's stream ended without exception; the
    events are the begin marker, the request, every fragment forwarded, the
    end marker. *)
Lemma dispatch_inv (round pos : nat) (registry : gmap string AgentCard)
    (agent : pyvalue) (rec : AgentAnswer) :
  outcome (dispatch W self round pos registry agent) = inr rec ->
  exists card chunks,
    py_getitem agent "name" = inr (PyStr (ans_name rec))
    /\ registry !! ans_name rec = Some card
    /\ py_getitem agent "prompt" = inr (ans_prompt rec)
    /\ send_message_to_an_agent W round pos card (ans_prompt rec) = (chunks, None)
    /\ ans_answer rec = answer_of (text_of chunks)
    /\ events (dispatch W self round pos registry agent)
       = Yielded (agent_begin (ans_name rec))
         :: AgentRequest card (ans_prompt rec)
         :: flat_map (forwarded self) chunks ++ [Yielded agent_end].
Proof.
  unfold dispatch, lift, tell.
  destruct (py_getitem agent "name") as [e|name]; [discriminate|].
  rewrite bind_inr.
  destruct (registry_getitem registry name) as [e|[n card]] eqn:R; [discriminate|].
  rewrite !bind_inr.
  destruct (py_getitem agent "prompt") as [e|prompt]; [discriminate|].
  rewrite !bind_inr.
  destruct (send_message_to_an_agent W round pos (snd (n, card)) prompt)
    as [chunks err] eqn:S.
  rewrite drain_spec.
  destruct err as [e|]; [discriminate|].
  rewrite !bind_inr. simpl. intros [= <-]. simpl.
  apply registry_getitem_inv in R as [-> L]. simpl in L.
  exists card, chunks. repeat split; auto.
Qed.

End DispatchFacts.

(** * The claims *)

(** C5.  Called with an empty list of endpoint addresses, [get_agents]
    returns the empty mapping and the empty prompt at once: its run has no
    event, so no request went out, and it ends without exception. *)
Theorem get_agents_empty_urls (W : World) (round : nat) (m : Mode) (cb : bool) :
  get_agents W {| mode := m; token_stream_callback := cb; agent_urls := Some [] |}
    round
  = ([], inr (∅, EmptyString)).
Proof. reflexivity. Qed.

(** C9.  An agent built without [agent_urls] holds [None] there, and
    [get_agents] treats it as it treats the empty list: the empty mapping,
    the empty prompt, no event and no exception. *)
Theorem get_agents_without_urls (W : World) (round : nat) (m : option Mode)
    (cb : bool) (agent_prompt : option string) :
  agent_urls (Agent_init m cb None agent_prompt) = None
  /\ get_agents W (Agent_init m cb None agent_prompt) round
     = ([], inr (∅, EmptyString))
  /\ get_agents W (Agent_init m cb None agent_prompt) round
     = get_agents W (Agent_init m cb (Some []) agent_prompt) round.
Proof. repeat split. Qed.

(** C10.  For one event of an agent's stream [send_message_to_an_agent]
    yields at most one fragment, and it yields the fragment [text] exactly
    when the event is a successful status update whose message has
    [TextPart text] as its first part.  An error response, a result that is
    not a status update, a status without message and a message without
    parts yield nothing; the parts after the first never matter; the
    generator yields the per-event fragments in the order of the events, and
    the response [stream] accumulates is the text of those fragments. *)
Theorem first_text_part_only (W : World) (round pos : nat) (card : AgentCard)
    (prompt : pyvalue) (chunk : SendStreamingMessageResponse) :
  length (chunk_yield chunk) <= 1
  /\ (forall text,
        chunk_yield chunk = [text]
        <-> exists status msg rest,
              chunk = SendStreamingMessageSuccessResponse (TaskStatusUpdateEvent status)
              /\ message status = Some msg
              /\ parts msg = TextPart text :: rest)
  /\ (forall code error, chunk_yield (JSONRPCErrorResponse code error) = [])
  /\ (forall result,
        (forall status, result <> TaskStatusUpdateEvent status) ->
        chunk_yield (SendStreamingMessageSuccessResponse result) = [])
  /\ (forall st id,
        chunk_yield
          (SendStreamingMessageSuccessResponse
             (TaskStatusUpdateEvent
                {| state := st; message := Some {| parts := []; messageId := id |} |}))
        = [])
  /\ (forall st,
        chunk_yield
          (SendStreamingMessageSuccessResponse
             (TaskStatusUpdateEvent {| state := st; message := None |}))
        = [])
  /\ (forall st id part0 rest rest',
        chunk_yield
          (SendStreamingMessageSuccessResponse
             (TaskStatusUpdateEvent
                {| state := st;
                   message := Some {| parts := part0 :: rest; messageId := id |} |}))
        = chunk_yield
            (SendStreamingMessageSuccessResponse
               (TaskStatusUpdateEvent
                  {| state := st;
                     message := Some {| parts := part0 :: rest'; messageId := id |} |})))
  /\ fst (send_message_to_an_agent W round pos card prompt)
     = concat (map chunk_yield (fst (send_message_streaming W round pos card prompt)))
  /\ (forall self,
        forward_chunks self (fst (send_message_to_an_agent W round pos card prompt))
          EmptyString
        = (flat_map (forwarded self)
             (concat (map chunk_yield
                        (fst (send_message_streaming W round pos card prompt)))),
           inr (text_of
                  (concat (map chunk_yield
                             (fst (send_message_streaming W round pos card prompt))))))).
Proof.
  assert (fst (send_message_to_an_agent W round pos card prompt)
          = concat (map chunk_yield
                      (fst (send_message_streaming W round pos card prompt)))) as Y.
  { unfold send_message_to_an_agent.
    now destruct (send_message_streaming W round pos card prompt). }
  split; [|split; [|repeat split]]; try exact Y;
    try (intros self; now rewrite forward_chunks_spec, Y).
  - destruct chunk as [[| |[st [[[|[] ?] ?]|]]|]|]; simpl; lia.
  - intros text. split.
    + destruct chunk as [[| |[st [[[|[] ?] ?]|]]|]|]; simpl; try discriminate.
      intros [= ->]. eauto 10.
    + intros (status & msg & rest & -> & Hm & Hp). simpl. now rewrite Hm, Hp.
  - intros [| | |] H; try reflexivity. now destruct (H status).
Qed.

(** C3, as the code has it.  The answer recorded for a dispatched agent is
    computed from the whole concatenated response: when the response has an
    Answer region, it has a first one, and the answer is the inner text of
    that first region with the whitespace at both ends removed; when it has
    none, the answer is the response itself, unchanged. *)
Theorem recorded_answer (W : World) (self : Agent) (round pos : nat)
    (registry : gmap string AgentCard) (agent : pyvalue) (rec : AgentAnswer) :
  outcome (dispatch W self round pos registry agent) = inr rec ->
  exists card agent_response,
    registry !! ans_name rec = Some card
    /\ agent_response
       = text_of (fst (send_message_to_an_agent W round pos card (ans_prompt rec)))
    /\ (has_region "<Answer>" "</Answer>" agent_response ->
        exists inner, first_region "<Answer>" "</Answer>" agent_response inner)
    /\ (forall inner,
          first_region "<Answer>" "</Answer>" agent_response inner ->
          ans_answer rec = PyStr.strip inner)
    /\ (~ has_region "<Answer>" "</Answer>" agent_response ->
        ans_answer rec = agent_response).
Proof.
  intros H.
  destruct (dispatch_inv _ _ _ _ _ _ _ H)
    as (card & chunks & _ & L & _ & S & A & _).
  exists card, (text_of chunks). rewrite S. repeat split; auto.
  - intros R. destruct (has_region_search _ _ _ R) as (inner & E).
    exists inner. apply search_between_first; [discriminate | discriminate | exact E].
  - intros inner FR. rewrite A. unfold answer_of.
    now rewrite (first_region_search _ _ _ _ no_border_answer_open
                   no_border_answer_close FR).
  - intros NR. rewrite A. unfold answer_of.
    now rewrite (no_region_search _ _ _ NR).
Qed.

(** The echo agent answers with an Answer region padded with blanks: the
    recorded answer is the inner text without the padding. *)
Lemma recorded_answer_witness :
  outcome (dispatch Demo.always_echo Demo.client 0 0
             (registry_of [Demo.echo_card]) (selection_object ("echo", "hi")))
  = inr {| ans_name := "echo"; ans_prompt := PyStr "hi"; ans_answer := "pong" |}
  /\ exists card agent_response,
       registry_of [Demo.echo_card] !! "echo" = Some card
       /\ agent_response
          = text_of (fst (send_message_to_an_agent Demo.always_echo 0 0 card
                            (PyStr "hi")))
       /\ (has_region "<Answer>" "</Answer>" agent_response ->
           exists inner, first_region "<Answer>" "</Answer>" agent_response inner)
       /\ (forall inner,
             first_region "<Answer>" "</Answer>" agent_response inner ->
             "pong" = PyStr.strip inner)
       /\ (~ has_region "<Answer>" "</Answer>" agent_response ->
           "pong" = agent_response).
Proof.
  split; [vm_compute; reflexivity|].
  apply (recorded_answer Demo.always_echo Demo.client 0 0
           (registry_of [Demo.echo_card]) (selection_object ("echo", "hi"))
           {| ans_name := "echo"; ans_prompt := PyStr "hi"; ans_answer := "pong" |}).
  vm_compute; reflexivity.
Defined.

(** C3, as the spec states it, fails: the whole response of the echo agent
    is one Answer region whose inner text is pong between two blanks, and
    the answer recorded is pong without them. *)
Lemma exact_inner_text_counterexample :
  text_of (fst (send_message_to_an_agent Demo.always_echo 0 0 Demo.echo_card
                  (PyStr "hi")))
  = "<Answer> pong </Answer>"
  /\ first_region "<Answer>" "</Answer>" "<Answer> pong </Answer>" " pong "
  /\ outcome (dispatch Demo.always_echo Demo.client 0 0
                (registry_of [Demo.echo_card]) (selection_object ("echo", "hi")))
     = inr {| ans_name := "echo"; ans_prompt := PyStr "hi"; ans_answer := "pong" |}
  /\ "pong" <> " pong ".
Proof.
  split; [reflexivity|]. split; [|split; [vm_compute; reflexivity | discriminate]].
  exists EmptyString, EmptyString. split; [reflexivity|].
  split; apply find_sub_None; reflexivity.
Qed.

(** C7.  A decision text without fenced block makes [extract_agents] return
    the empty list, in every world; and a round whose decision gives the
    empty list ends the loop: whatever rounds were left, the run ends
    normally with the events of that round's deciding phase and no other. *)
Theorem no_block_ends_the_loop :
  (forall (W : World) (response : string),
      ~ has_region json_fence_open json_fence_close response ->
      extract_agents W response = inr (PyList []))
  /\ (forall (W : World) (self : Agent) (question : string) (round : nat)
        (rounds : list nat) (agent_answers : list AgentAnswer)
        (evs : list event) (registry : gmap string AgentCard)
        (response : string),
        deciding W self question round agent_answers
        = (evs, inr (registry, response)) ->
        extract_agents W response = inr (PyList []) ->
        stream_rounds W self question (round :: rounds) agent_answers
        = (evs, inr tt)).
Proof.
  split.
  - intros W response NR. unfold extract_agents.
    now rewrite (no_region_search _ _ _ NR).
  - intros W self question round rounds agent_answers evs registry response D E.
    rewrite stream_rounds_cons, (stream_round_decided _ _ _ _ _ _ _ _ D), E.
    reflexivity.
Qed.

Lemma search_None_no_region (opening closing s : string) :
  PyStr.search_between opening closing s = None ->
  ~ has_region opening closing s.
Proof.
  intros S R. destruct (has_region_search _ _ _ R) as (g & E). congruence.
Qed.

(** The model answers in two chunks and fences nothing: the run is the
    card request, the model call and the two chunks. *)
Lemma no_block_ends_the_loop_witness :
  ~ has_region json_fence_open json_fence_close "A2A is a protocol."
  /\ extract_agents Demo.plain_answer "A2A is a protocol." = inr (PyList [])
  /\ stream Demo.plain_answer Demo.client "ping"
     = ([CardRequest Demo.echo_url; CallLLM "ping / echo / ";
         Yielded "A2A is "; Yielded "a protocol."], inr tt).
Proof.
  assert (~ has_region json_fence_open json_fence_close "A2A is a protocol.") as NR
    by (apply search_None_no_region; reflexivity).
  split; [exact NR|]. split.
  - exact (proj1 no_block_ends_the_loop Demo.plain_answer _ NR).
  - apply (proj2 no_block_ends_the_loop Demo.plain_answer Demo.client "ping" 0
             [1; 2] [] _ (registry_of [Demo.echo_card]) "A2A is a protocol.").
    + vm_compute; reflexivity.
    + exact (proj1 no_block_ends_the_loop Demo.plain_answer _ NR).
Defined.

Section AbortFacts.

Variable W : World.
Variable self : Agent.

Lemma extract_first_region (response block : string) :
  first_region json_fence_open json_fence_close response block ->
  extract_agents W response = json_loads W block.
Proof.
  intros FR. unfold extract_agents.
  now rewrite (first_region_search _ _ _ _ no_border_json_fence_open
                 no_border_json_fence_close FR).
Qed.

(** A selection whose dispatch raises ends the run there: the selections
    before it were dispatched, nothing comes after its own events. *)
Lemma stream_rounds_dispatch_raises (question : string) (round : nat)
    (rounds : list nat) (agent_answers answers' : list AgentAnswer)
    (evs evb eva : list event) (registry : gmap string AgentCard)
    (response : string) (before rest : list pyvalue) (agent : pyvalue)
    (e : exn) :
  deciding W self question round agent_answers = (evs, inr (registry, response)) ->
  extract_agents W response = inr (PyList (before ++ agent :: rest)) ->
  dispatch_all W self round 0 registry before agent_answers = (evb, inr answers') ->
  dispatch W self round (length before) registry agent = (eva, inl e) ->
  stream_rounds W self question (round :: rounds) agent_answers
  = (evs ++ evb ++ eva, inl e).
Proof.
  intros D E B A.
  rewrite stream_rounds_cons, (stream_round_decided _ _ _ _ _ _ _ _ D), E.
  assert (truthy (PyList (before ++ agent :: rest)) = true) as ->
    by (now destruct before).
  cbn [py_iter]. rewrite (dispatch_all_app _ _ _ _ _ _ _ _ _ _ B).
  cbn [dispatch_all Nat.add]. rewrite A, bind_inl. reflexivity.
Qed.

End AbortFacts.

(** C4.  When the decision selects, after the selections [before], an agent
    whose name [n] is not a key of the round's directory, the run ends with
    [KeyError n]: its events are those of the deciding phase and of the
    dispatches of [before]; the selection itself produces no event (no begin
    marker, no request to an agent), the selections after it and the rounds
    left are never reached. *)
Theorem unknown_agent_aborts (W : World) (self : Agent) (question : string)
    (round : nat) (rounds : list nat) (agent_answers answers' : list AgentAnswer)
    (evs evb : list event) (registry : gmap string AgentCard)
    (response : string) (before rest : list pyvalue) (agent : pyvalue)
    (n : string) :
  deciding W self question round agent_answers = (evs, inr (registry, response)) ->
  extract_agents W response = inr (PyList (before ++ agent :: rest)) ->
  dispatch_all W self round 0 registry before agent_answers = (evb, inr answers') ->
  py_getitem agent "name" = inr (PyStr n) ->
  registry !! n = None ->
  stream_rounds W self question (round :: rounds) agent_answers
  = (evs ++ evb, inl (KeyError (PyStr n))).
Proof.
  intros D E B N L.
  rewrite (stream_rounds_dispatch_raises W self _ _ _ _ _ _ _ [] _ _ _ _ _
             (KeyError (PyStr n)) D E B).
  - now rewrite app_nil_r.
  - unfold dispatch, lift. rewrite N, bind_inr. simpl. now rewrite L.
Qed.

(** The model selects echo, ghost and echo again; only echo is registered.
    The run dispatches the first selection and ends with the KeyError for
    ghost; the third selection and the rounds left produce nothing. *)
Lemma unknown_agent_aborts_witness :
  stream Demo.ghost Demo.client "ping"
  = ([CardRequest Demo.echo_url; CallLLM "ping / echo / "; Yielded Demo.ghost_text]
     ++ [Yielded (agent_begin "echo"); AgentRequest Demo.echo_card (PyStr "hi");
         Yielded "<Answer> po"; Yielded "ng </Answer>"; Yielded agent_end],
     inl (KeyError (PyStr "ghost"))).
Proof.
  apply (unknown_agent_aborts Demo.ghost Demo.client "ping" 0 [1; 2] []
           [{| ans_name := "echo"; ans_prompt := PyStr "hi"; ans_answer := "pong" |}]
           _ _ (registry_of [Demo.echo_card]) Demo.ghost_text
           [selection_object ("echo", "hi")]
           [selection_object ("echo", "again")]
           (selection_object ("ghost", "boo")) "ghost").
  - vm_compute; reflexivity.
  - vm_compute; reflexivity.
  - vm_compute; reflexivity.
  - reflexivity.
  - vm_compute; reflexivity.
Defined.

(** C2, as the code has it.  When the first fenced block of the decision
    holds text that [json.loads] rejects, the exception of the decoder ends
    the run in that round, after the decision was forwarded and before any
    dispatch.  When the block decodes to a list in which, after the
    selections [before], an object has no name, the run ends with the
    KeyError for name at that object; when the object names a registered
    agent and has no prompt, the run ends with the KeyError for prompt after
    that agent's begin marker.  In no case are zero agents selected. *)
Theorem bad_block_aborts :
  (forall (W : World) (self : Agent) (question : string) (round : nat)
      (rounds : list nat) (agent_answers : list AgentAnswer) (evs : list event)
      (registry : gmap string AgentCard) (response block : string) (e : exn),
      deciding W self question round agent_answers
      = (evs, inr (registry, response)) ->
      first_region json_fence_open json_fence_close response block ->
      json_loads W block = inl e ->
      stream_rounds W self question (round :: rounds) agent_answers
      = (evs, inl e))
  /\ (forall (W : World) (self : Agent) (question : string) (round : nat)
        (rounds : list nat) (agent_answers answers' : list AgentAnswer)
        (evs evb : list event) (registry : gmap string AgentCard)
        (response block : string) (before rest : list pyvalue)
        (fields : list (string * pyvalue)),
        deciding W self question round agent_answers
        = (evs, inr (registry, response)) ->
        first_region json_fence_open json_fence_close response block ->
        json_loads W block = inr (PyList (before ++ PyDict fields :: rest)) ->
        dispatch_all W self round 0 registry before agent_answers
        = (evb, inr answers') ->
        dict_get fields "name" = None ->
        stream_rounds W self question (round :: rounds) agent_answers
        = (evs ++ evb, inl (KeyError (PyStr "name"))))
  /\ (forall (W : World) (self : Agent) (question : string) (round : nat)
        (rounds : list nat) (agent_answers answers' : list AgentAnswer)
        (evs evb : list event) (registry : gmap string AgentCard)
        (response block : string) (before rest : list pyvalue)
        (fields : list (string * pyvalue)) (n : string) (card : AgentCard),
        deciding W self question round agent_answers
        = (evs, inr (registry, response)) ->
        first_region json_fence_open json_fence_close response block ->
        json_loads W block = inr (PyList (before ++ PyDict fields :: rest)) ->
        dispatch_all W self round 0 registry before agent_answers
        = (evb, inr answers') ->
        dict_get fields "name" = Some (PyStr n) ->
        registry !! n = Some card ->
        dict_get fields "prompt" = None ->
        stream_rounds W self question (round :: rounds) agent_answers
        = (evs ++ evb ++ [Yielded (agent_begin n)],
           inl (KeyError (PyStr "prompt")))).
Proof.
  split; [|split].
  - intros W self question round rounds agent_answers evs registry response
      block e D FR J.
    rewrite stream_rounds_cons, (stream_round_decided _ _ _ _ _ _ _ _ D).
    now rewrite (extract_first_region W _ _ FR), J.
  - intros W self question round rounds agent_answers answers' evs evb
      registry response block before rest fields D FR J B N.
    rewrite <- (extract_first_region W _ _ FR) in J.
    rewrite (stream_rounds_dispatch_raises W self _ _ _ _ _ _ _ [] _ _ _ _ _
               (KeyError (PyStr "name")) D J B).
    + now rewrite app_nil_r.
    + unfold dispatch, lift. simpl. now rewrite N.
  - intros W self question round rounds agent_answers answers' evs evb
      registry response block before rest fields n card D FR J B N L P.
    rewrite <- (extract_first_region W _ _ FR) in J.
    apply (stream_rounds_dispatch_raises W self _ _ _ _ _ _ _ _ _ _ _ _ _
             _ D J B).
    unfold dispatch, lift, tell. simpl. rewrite N. simpl.
    rewrite L. simpl. now rewrite P.
Qed.

Lemma first_region_by_search (opening closing s g : string) :
  opening <> EmptyString -> closing <> EmptyString ->
  PyStr.search_between opening closing s = Some g ->
  first_region opening closing s g.
Proof. apply search_between_first. Qed.

Ltac first_region_by_search :=
  apply first_region_by_search; [discriminate | discriminate | reflexivity].

(** Three runs that end in the first round: a block that is no JSON, an
    object without name, an object without prompt. *)
Lemma bad_block_aborts_witness :
  stream Demo.malformed_block Demo.client "ping"
  = ([CardRequest Demo.echo_url; CallLLM "ping / echo / ";
      Yielded Demo.malformed_text], inl JSONDecodeError)
  /\ stream Demo.nameless Demo.client "ping"
     = ([CardRequest Demo.echo_url; CallLLM "ping / echo / ";
         Yielded Demo.nameless_text] ++ [], inl (KeyError (PyStr "name")))
  /\ stream Demo.promptless Demo.client "ping"
     = ([CardRequest Demo.echo_url; CallLLM "ping / echo / ";
         Yielded Demo.promptless_text] ++ [] ++ [Yielded (agent_begin "echo")],
        inl (KeyError (PyStr "prompt"))).
Proof.
  destruct bad_block_aborts as (A & B & C).
  split; [|split].
  - apply (A Demo.malformed_block Demo.client "ping" 0 [1; 2] [] _
             (registry_of [Demo.echo_card]) Demo.malformed_text "[{").
    + vm_compute; reflexivity.
    + first_region_by_search.
    + reflexivity.
  - apply (B Demo.nameless Demo.client "ping" 0 [1; 2] [] [] _ _
             (registry_of [Demo.echo_card]) Demo.nameless_text
             (Demo.lit "[{'prompt': 'hi'}]") [] [] [("prompt", PyStr "hi")]).
    + vm_compute; reflexivity.
    + first_region_by_search.
    + vm_compute; reflexivity.
    + reflexivity.
    + reflexivity.
  - apply (C Demo.promptless Demo.client "ping" 0 [1; 2] [] [] _ _
             (registry_of [Demo.echo_card]) Demo.promptless_text
             (Demo.lit "[{'name': 'echo'}]") [] [] [("name", PyStr "echo")]
             "echo" Demo.echo_card).
    + vm_compute; reflexivity.
    + first_region_by_search.
    + vm_compute; reflexivity.
    + reflexivity.
    + reflexivity.
    + vm_compute; reflexivity.
    + reflexivity.
Defined.

(** C2, as the spec states it, fails.  The decision of [Demo.malformed_block]
    has a fenced block whose content is no JSON; [extract_agents] raises
    instead of returning the empty list, and the run ends with that
    exception, not normally.  The decision of [Demo.nameless] selects with an
    object that has no name; the run ends with a KeyError. *)
Lemma parse_failure_counterexample :
  first_region json_fence_open json_fence_close Demo.malformed_text "[{"
  /\ JsonRef.loads "[{" = inl JSONDecodeError
  /\ extract_agents Demo.malformed_block Demo.malformed_text = inl JSONDecodeError
  /\ outcome (stream Demo.malformed_block Demo.client "ping") = inl JSONDecodeError
  /\ extract_agents Demo.nameless Demo.nameless_text
     = inr (PyList [PyDict [("prompt", PyStr "hi")]])
  /\ outcome (stream Demo.nameless Demo.client "ping")
     = inl (KeyError (PyStr "name")).
Proof.
  split; [first_region_by_search|].
  repeat split; vm_compute; reflexivity.
Qed.

Section OrderFacts.

Variable W : World.
Variable self : Agent.

Lemma get_agents_events (round : nat) :
  events (get_agents W self round)
  = match agent_urls self with
    | Some (url :: urls) => map CardRequest (url :: urls)
    | _ => []
    end.
Proof.
  unfold get_agents. destruct (agent_urls self) as [[|url urls]|]; try reflexivity.
  unfold tell, lift. rewrite bind_inr.
  destruct (gather (map (get_agent_card W round) (url :: urls))); simpl;
    now rewrite ?app_nil_r.
Qed.

Lemma filter_card_requests (P : event -> bool) (urls : list string) :
  (forall url, P (CardRequest url) = false) ->
  List.filter P (map CardRequest urls) = [].
Proof.
  intros HP. induction urls as [|url urls IH]; simpl; [reflexivity|].
  now rewrite HP.
Qed.

Lemma filter_get_agents (P : event -> bool) (round : nat) :
  (forall url, P (CardRequest url) = false) ->
  List.filter P (events (get_agents W self round)) = [].
Proof.
  intros HP. rewrite get_agents_events.
  destruct (agent_urls self) as [[|url urls]|]; try reflexivity.
  now apply filter_card_requests.
Qed.

Lemma filter_forwarded (P : event -> bool) (chunks : list string) :
  (forall c, P (Yielded c) = false) -> (forall c, P (Callback c) = false) ->
  List.filter P (flat_map (forwarded self) chunks) = [].
Proof.
  intros HY HC. induction chunks as [|c chunks IH]; simpl; [reflexivity|].
  rewrite List.filter_app, IH, app_nil_r. unfold forwarded.
  destruct (token_stream_callback self); simpl; now rewrite ?HC, HY.
Qed.

Lemma dispatch_all_ok (round pos : nat) (registry : gmap string AgentCard)
    (items : list pyvalue) (answers answers' : list AgentAnswer)
    (evd : list event) :
  dispatch_all W self round pos registry items answers = (evd, inr answers') ->
  evd = concat (map events (dispatch_runs W self round pos registry items))
  /\ exists recs,
       answers' = answers ++ recs
       /\ Forall2 (fun run rec => outcome run = inr rec)
            (dispatch_runs W self round pos registry items) recs.
Proof.
  revert pos answers evd. induction items as [|agent items IH];
    intros pos answers evd H.
  - simpl in H. injection H as <- <-. split; [reflexivity|].
    exists []. now rewrite app_nil_r.
  - cbn [dispatch_all] in H.
    destruct (dispatch W self round pos registry agent) as [ev1 [e|answer]] eqn:D;
      [discriminate|].
    rewrite bind_inr in H.
    destruct (dispatch_all W self round (S pos) registry items (answers ++ [answer]))
      as [evr [e|a]] eqn:R; [discriminate|].
    simpl in H. injection H as <- <-.
    destruct (IH (S pos) (answers ++ [answer]) evr R) as (E & recs & A & F).
    split.
    + cbn [dispatch_runs map concat]. rewrite D. simpl. now rewrite <- E.
    + exists (answer :: recs). split.
      * now rewrite A, <- app_assoc.
      * cbn [dispatch_runs]. constructor; [now rewrite D | exact F].
Qed.

(** The requests to agents in the events of a list of dispatches are those
    of the answers recorded, in the same order. *)
Lemma dispatch_runs_requests (round pos : nat) (registry : gmap string AgentCard)
    (items : list pyvalue) (recs : list AgentAnswer) :
  Forall2 (fun run rec => outcome run = inr rec)
    (dispatch_runs W self round pos registry items) recs ->
  Forall2 (fun e rec =>
             exists card, registry !! ans_name rec = Some card
                          /\ e = AgentRequest card (ans_prompt rec))
    (List.filter is_AgentRequest
       (concat (map events (dispatch_runs W self round pos registry items))))
    recs.
Proof.
  revert pos recs. induction items as [|agent items IH]; intros pos recs F.
  - inversion F. constructor.
  - cbn [dispatch_runs] in F. inversion F as [|run rec runs recs' O F' E1 E2]; subst.
    cbn [dispatch_runs map concat]. rewrite List.filter_app.
    destruct (dispatch_inv W self _ _ _ _ _ O)
      as (card & chunks & _ & L & _ & _ & _ & Ev).
    rewrite Ev. cbn [List.filter is_AgentRequest].
    rewrite List.filter_app, filter_forwarded by reflexivity.
    simpl. constructor; [eauto | apply IH, F'].
Qed.

End OrderFacts.

(** C6.  A round that dispatches: its events are those of the deciding
    phase followed by those of the dispatches.  The deciding phase forwards
    every chunk of the decision, whose text is the whole of them, and sends
    no request to an agent.  The events of the dispatches are the events of
    the dispatch of each selection, one selection after the other in the
    order of the list, and so are its requests to agents; the answers
    recorded are appended to the answers so far in that same order. *)
Theorem round_order (W : World) (self : Agent) (question : string)
    (round : nat) (agent_answers answers' : list AgentAnswer)
    (evs evd : list event) (registry : gmap string AgentCard)
    (response : string) (agents : pyvalue) (items : list pyvalue) :
  deciding W self question round agent_answers = (evs, inr (registry, response)) ->
  extract_agents W response = inr agents ->
  truthy agents = true ->
  py_iter agents = inr items ->
  dispatch_all W self round 0 registry items agent_answers = (evd, inr answers') ->
  stream_round W self question round agent_answers
  = (evs ++ evd, inr (Some answers'))
  /\ (exists agent_prompt chunks,
        snd (decide W round question agent_prompt agent_answers) = (chunks, None)
        /\ response = text_of chunks
        /\ evs = events (get_agents W self round)
                 ++ CallLLM (fst (decide W round question agent_prompt agent_answers))
                 :: flat_map (forwarded self) chunks)
  /\ List.filter is_AgentRequest evs = []
  /\ evd = concat (map events (dispatch_runs W self round 0 registry items))
  /\ exists recs,
       answers' = agent_answers ++ recs
       /\ Forall2 (fun run rec => outcome run = inr rec)
            (dispatch_runs W self round 0 registry items) recs
       /\ Forall2 (fun e rec =>
                     exists card, registry !! ans_name rec = Some card
                                  /\ e = AgentRequest card (ans_prompt rec))
            (List.filter is_AgentRequest evd) recs.
Proof.
  intros D E T I A.
  destruct (deciding_inv W self _ _ _ _ _ _ D) as (agent_prompt & chunks & _ & G & Ev & R).
  destruct (dispatch_all_ok W self _ _ _ _ _ _ _ A) as (Ed & recs & Ea & F).
  split; [|split; [|split; [|split]]].
  - rewrite (stream_round_decided _ _ _ _ _ _ _ _ D), E, T, I, A. reflexivity.
  - exists agent_prompt, chunks. auto.
  - rewrite Ev, List.filter_app, filter_get_agents by reflexivity.
    simpl. now apply filter_forwarded.
  - exact Ed.
  - exists recs. split; [exact Ea|]. split; [exact F|].
    rewrite Ed. now apply dispatch_runs_requests.
Qed.

(** The model selects echo twice: the two chunks of the decision come
    first, then the first dispatch from marker to marker, then the second;
    the two answers are recorded in that order. *)
Lemma round_order_witness :
  stream_round Demo.twice Demo.client "ping" 0 []
  = ([CardRequest Demo.echo_url; CallLLM "ping / echo / ";
      Yielded "Two questions. "; Yielded Demo.twice_text]
     ++ [Yielded (agent_begin "echo"); AgentRequest Demo.echo_card (PyStr "one");
         Yielded "first"; Yielded agent_end;
         Yielded (agent_begin "echo"); AgentRequest Demo.echo_card (PyStr "two");
         Yielded "<Answer>second</Answer>"; Yielded agent_end],
     inr (Some [ {| ans_name := "echo"; ans_prompt := PyStr "one";
                    ans_answer := "first" |};
                 {| ans_name := "echo"; ans_prompt := PyStr "two";
                    ans_answer := "second" |} ])).
Proof.
  refine (proj1 (round_order Demo.twice Demo.client "ping" 0 [] _ _ _
                   (registry_of [Demo.echo_card])
                   ("Two questions. " +:+ Demo.twice_text)
                   (PyList [selection_object ("echo", "one");
                            selection_object ("echo", "two")])
                   [selection_object ("echo", "one");
                    selection_object ("echo", "two")] _ _ _ _ _));
    vm_compute; reflexivity.
Defined.

Section CountFacts.

Variable W : World.
Variable self : Agent.

Lemma llm_calls_bind {A B} (m : M A) (k : A -> M B) (x y : nat) :
  llm_calls m <= x -> (forall a, llm_calls (k a) <= y) ->
  llm_calls (bind m k) <= x + y.
Proof.
  unfold llm_calls. intros Hm Hk. rewrite events_bind, List.filter_app, length_app.
  destruct (outcome m) as [e|a]; [simpl; lia|]. specialize (Hk a). lia.
Qed.

Lemma llm_calls_lift {A} (x : exn + A) : llm_calls (lift x) <= 0.
Proof. reflexivity. Qed.

Lemma llm_calls_ret {A} (a : A) : llm_calls (ret a) <= 0.
Proof. reflexivity. Qed.

Lemma llm_calls_drain (g : generator string) : llm_calls (drain self g) <= 0.
Proof.
  destruct g as [chunks err]. unfold llm_calls. rewrite drain_spec.
  unfold events. simpl. now rewrite filter_forwarded.
Qed.

Lemma llm_calls_get_agents (round : nat) :
  llm_calls (get_agents W self round) <= 0.
Proof. unfold llm_calls. now rewrite filter_get_agents. Qed.

Lemma llm_calls_dispatch (round pos : nat) (registry : gmap string AgentCard)
    (agent : pyvalue) :
  llm_calls (dispatch W self round pos registry agent) <= 0.
Proof.
  unfold dispatch.
  apply (llm_calls_bind _ _ 0 0); [apply llm_calls_lift | intros name].
  apply (llm_calls_bind _ _ 0 0); [apply llm_calls_lift | intros entry].
  apply (llm_calls_bind _ _ 0 0); [reflexivity | intros _].
  apply (llm_calls_bind _ _ 0 0); [apply llm_calls_lift | intros prompt].
  apply (llm_calls_bind _ _ 0 0); [reflexivity | intros _].
  apply (llm_calls_bind _ _ 0 0); [apply llm_calls_drain | intros text].
  apply (llm_calls_bind _ _ 0 0); [reflexivity | intros _].
  apply llm_calls_ret.
Qed.

Lemma llm_calls_dispatch_all (round pos : nat) (registry : gmap string AgentCard)
    (items : list pyvalue) (answers : list AgentAnswer) :
  llm_calls (dispatch_all W self round pos registry items answers) <= 0.
Proof.
  revert pos answers. induction items as [|agent items IH]; intros pos answers.
  - reflexivity.
  - cbn [dispatch_all].
    apply (llm_calls_bind _ _ 0 0); [apply llm_calls_dispatch | intros answer].
    apply IH.
Qed.

Lemma llm_calls_deciding (question : string) (round : nat)
    (answers : list AgentAnswer) :
  llm_calls (deciding W self question round answers) <= 1.
Proof.
  unfold deciding.
  apply (llm_calls_bind _ _ 0 1); [apply llm_calls_get_agents|].
  intros [registry agent_prompt].
  destruct (decide W round question agent_prompt answers) as [prompt g].
  apply (llm_calls_bind _ _ 1 0); [reflexivity | intros _].
  apply (llm_calls_bind _ _ 0 0); [apply llm_calls_drain | intros response].
  apply llm_calls_ret.
Qed.

Lemma llm_calls_stream_round (question : string) (round : nat)
    (answers : list AgentAnswer) :
  llm_calls (stream_round W self question round answers) <= 1.
Proof.
  unfold stream_round.
  apply (llm_calls_bind _ _ 1 0); [apply llm_calls_deciding|].
  intros [registry response].
  apply (llm_calls_bind _ _ 0 0); [apply llm_calls_lift | intros agents].
  destruct (truthy agents); [|apply llm_calls_ret].
  apply (llm_calls_bind _ _ 0 0); [apply llm_calls_lift | intros items].
  apply (llm_calls_bind _ _ 0 0); [apply llm_calls_dispatch_all | intros answers'].
  apply llm_calls_ret.
Qed.

Lemma llm_calls_stream_rounds (question : string) (rounds : list nat)
    (answers : list AgentAnswer) :
  llm_calls (stream_rounds W self question rounds answers) <= length rounds.
Proof.
  revert answers. induction rounds as [|round rounds IH]; intros answers.
  - reflexivity.
  - cbn [stream_rounds length].
    apply (llm_calls_bind _ _ 1 (length rounds)); [apply llm_calls_stream_round|].
    intros [answers'|]; [apply IH | apply Nat.le_0_l].
Qed.

End CountFacts.

Section AgreeFacts.

Variables (W W' : World) (self : Agent) (n : nat).
Hypothesis AG : agree_below n W W'.

Lemma bind_ext {A B} (m : M A) (k k' : A -> M B) :
  (forall a, k a = k' a) -> bind m k = bind m k'.
Proof. intros H. destruct m as [evs [e|a]]; simpl; [reflexivity | now rewrite H]. Qed.

Lemma get_agents_agree (round : nat) :
  round < n -> get_agents W self round = get_agents W' self round.
Proof.
  destruct AG as (_ & T & _ & _ & C & _). intros Hr. unfold get_agents.
  destruct (agent_urls self) as [[|url urls]|]; try reflexivity.
  apply bind_ext. intros _. rewrite (map_ext _ _ (fun u => C round u Hr)).
  apply bind_ext. intros cards. now rewrite T.
Qed.

Lemma decide_agree (round : nat) (question agents_prompt : string)
    (called_agents : list AgentAnswer) :
  round < n ->
  decide W round question agents_prompt called_agents
  = decide W' round question agents_prompt called_agents.
Proof.
  destruct AG as (_ & _ & A & D & _ & L & _). intros Hr. unfold decide, call_llm.
  rewrite D, (L _ _ Hr). now destruct called_agents; rewrite ?A.
Qed.

Lemma extract_agents_agree (response : string) :
  extract_agents W response = extract_agents W' response.
Proof.
  destruct AG as (J & _). unfold extract_agents.
  now destruct (PyStr.search_between _ _ response).
Qed.

Lemma dispatch_agree (round pos : nat) (registry : gmap string AgentCard)
    (agent : pyvalue) :
  round < n ->
  dispatch W self round pos registry agent
  = dispatch W' self round pos registry agent.
Proof.
  destruct AG as (_ & _ & _ & _ & _ & _ & S). intros Hr. unfold dispatch.
  do 4 (apply bind_ext; intros ?).
  unfold send_message_to_an_agent. now rewrite (S _ _ _ _ Hr).
Qed.

Lemma dispatch_all_agree (round pos : nat) (registry : gmap string AgentCard)
    (items : list pyvalue) (answers : list AgentAnswer) :
  round < n ->
  dispatch_all W self round pos registry items answers
  = dispatch_all W' self round pos registry items answers.
Proof.
  intros Hr. revert pos answers.
  induction items as [|agent items IH]; intros pos answers; [reflexivity|].
  cbn [dispatch_all]. rewrite (dispatch_agree _ _ _ _ Hr).
  apply bind_ext. intros answer. apply IH.
Qed.

Lemma deciding_agree (question : string) (round : nat)
    (answers : list AgentAnswer) :
  round < n ->
  deciding W self question round answers
  = deciding W' self question round answers.
Proof.
  intros Hr. unfold deciding. rewrite (get_agents_agree _ Hr).
  apply bind_ext. intros [registry agent_prompt].
  now rewrite (decide_agree _ _ _ _ Hr).
Qed.

Lemma stream_round_agree (question : string) (round : nat)
    (answers : list AgentAnswer) :
  round < n ->
  stream_round W self question round answers
  = stream_round W' self question round answers.
Proof.
  intros Hr. unfold stream_round. rewrite (deciding_agree _ _ _ Hr).
  apply bind_ext. intros [registry response].
  rewrite extract_agents_agree. apply bind_ext. intros agents.
  destruct (truthy agents); [|reflexivity].
  apply bind_ext. intros items. now rewrite (dispatch_all_agree _ _ _ _ _ Hr).
Qed.

Lemma stream_rounds_agree (question : string) (rounds : list nat)
    (answers : list AgentAnswer) :
  Forall (fun round => round < n) rounds ->
  stream_rounds W self question rounds answers
  = stream_rounds W' self question rounds answers.
Proof.
  intros F. revert answers.
  induction F as [|round rounds Hr F IH]; intros answers; [reflexivity|].
  cbn [stream_rounds]. rewrite (stream_round_agree _ _ _ Hr).
  apply bind_ext. intros [answers'|]; [apply IH | reflexivity].
Qed.

End AgreeFacts.

(** C1.  A run of [stream] calls the model at most three times, whatever
    the world answers.  When each of the rounds 0, 1 and 2 dispatched its
    selections and went on, the run ends normally after the third, and its
    events are those of the three rounds.  What the world would answer in a
    later round never matters: two worlds that answer alike in the rounds 0,
    1 and 2 give the same run. *)
Theorem at_most_three_rounds (W : World) (self : Agent) (question : string) :
  llm_calls (stream W self question) <= 3
  /\ (forall (e0 e1 e2 : list event) (a1 a2 a3 : list AgentAnswer),
        stream_round W self question 0 [] = (e0, inr (Some a1)) ->
        stream_round W self question 1 a1 = (e1, inr (Some a2)) ->
        stream_round W self question 2 a2 = (e2, inr (Some a3)) ->
        stream W self question = (e0 ++ e1 ++ e2, inr tt))
  /\ (forall W' : World,
        agree_below 3 W W' ->
        stream W' self question = stream W self question).
Proof.
  split; [|split].
  - apply (llm_calls_stream_rounds W self question (seq 0 3) []).
  - intros e0 e1 e2 a1 a2 a3 R0 R1 R2. unfold stream. cbn [seq].
    rewrite stream_rounds_cons, R0, stream_rounds_cons, R1,
      stream_rounds_cons, R2.
    simpl. now rewrite app_nil_r.
  - intros W' AG. symmetry. apply (stream_rounds_agree W W' self 3 AG).
    repeat constructor.
Qed.

(** The model selects echo whenever it is asked: the run is three rounds
    long, each with the answers of the rounds before in its prompt, and it is
    the same run in a world whose model would go on to select a ghost. *)
Lemma at_most_three_rounds_witness :
  llm_calls (stream Demo.always_echo Demo.client "ping") <= 3
  /\ stream Demo.always_echo Demo.client "ping"
     = (Demo.echo_round "ping / echo / "
        ++ Demo.echo_round "ping / echo / echo: pong"
        ++ Demo.echo_round "ping / echo / echo: pong; echo: pong",
        inr tt)
  /\ stream Demo.echo_then_ghost Demo.client "ping"
     = stream Demo.always_echo Demo.client "ping".
Proof.
  destruct (at_most_three_rounds Demo.always_echo Demo.client "ping")
    as (A & B & C).
  split; [exact A|]. split.
  - apply (B _ _ _ [Demo.pong] [Demo.pong; Demo.pong]
             [Demo.pong; Demo.pong; Demo.pong]); vm_compute; reflexivity.
  - apply C. unfold agree_below. repeat split; intros; try reflexivity.
    + unfold stream_llm. simpl.
      do 3 (destruct r as [|r]; [reflexivity|]). lia.
Defined.

(** ** Decoding rendered selections *)

#[local] Arguments Ascii.eqb !_ !_ : simpl nomatch.

Section JsonFacts.

Import JsonRef.

Lemma plain_char_inv (c : ascii) :
  plain_char c = true ->
  Ascii.eqb c PyStr.DQUOTE = false /\ Ascii.eqb c BACKSLASH = false
  /\ (nat_of_ascii c <? 32)%nat = false.
Proof.
  unfold plain_char. intros H.
  apply andb_prop in H as [H B]. apply andb_prop in H as [L Q].
  apply negb_true_iff in B, Q. repeat split; auto.
  apply Nat.ltb_ge. now apply Nat.leb_le.
Qed.

Lemma scanstring_plain (s rest : string) :
  plain_text s = true ->
  scanstring (s +:+ String PyStr.DQUOTE rest) = Some (s, rest).
Proof.
  induction s as [|c s IH]; intros P.
  - reflexivity.
  - simpl in P. apply andb_prop in P as [Pc Ps].
    destruct (plain_char_inv c Pc) as (Q & B & L).
    simpl String.append. cbn [scanstring]. rewrite Q, B, L, (IH Ps). reflexivity.
Qed.

Local Abbreviation DQ := (PyStr.chr PyStr.DQUOTE) (only parsing).

Lemma render_selection_app (n p rest : string) :
  render_selection (n, p) +:+ rest
  = "{" +:+ DQ +:+ "name" +:+ DQ +:+ ": " +:+ DQ +:+ n +:+ DQ +:+ ", "
    +:+ DQ +:+ "prompt" +:+ DQ +:+ ": " +:+ DQ +:+ p +:+ DQ +:+ "}" +:+ rest.
Proof.
  unfold render_selection, quoted, PyStr.chr. simpl fst. simpl snd.
  rewrite !app_assoc_s. simpl. rewrite !app_assoc_s. simpl. reflexivity.
Qed.

(** One rendered selection decodes to its object, with fuel for the object,
    its items and their values. *)
Lemma scan_selection (fuel : nat) (sel : string * string) (rest : string) :
  plain_selection sel = true ->
  scan_once (S (S (S (S fuel)))) (render_selection sel +:+ rest)
  = Some (selection_object sel, rest).
Proof.
  destruct sel as [n p]. unfold plain_selection. simpl fst. simpl snd.
  intros P. apply andb_prop in P as [Pn Pp].
  rewrite render_selection_app. unfold PyStr.chr. simpl.
  rewrite (scanstring_plain n _ Pn). simpl.
  rewrite (scanstring_plain p _ Pp). simpl. reflexivity.
Qed.

Lemma render_selection_head (sel : string * string) :
  exists t, render_selection sel = String "{"%char t.
Proof. unfold render_selection. simpl. eauto. Qed.

Lemma render_items_head (sel : string * string) (sels : list (string * string)) :
  exists t, render_items (sel :: sels) = String "{"%char t.
Proof.
  destruct (render_selection_head sel) as (t & E).
  destruct sels as [|sel' sels]; cbn [render_items]; rewrite E; simpl; eauto.
Qed.

Lemma array_items_eq (fuel : nat) (s : string) (acc : list pyvalue) :
  array_items (S fuel) s acc
  = match scan_once fuel s with
    | None => None
    | Some (v, rest) =>
        match skip_ws rest with
        | String c r =>
            if Ascii.eqb c "]" then Some (PyList (acc ++ [v]), r)
            else if Ascii.eqb c "," then array_items fuel (skip_ws r) (acc ++ [v])
            else None
        | EmptyString => None
        end
    end.
Proof. reflexivity. Qed.

Lemma array_items_next (fuel : nat) (v : pyvalue) (acc : list pyvalue)
    (t : string) :
  match skip_ws (", " +:+ String "{"%char t) with
  | String c r =>
      if Ascii.eqb c "]" then Some (PyList (acc ++ [v]), r)
      else if Ascii.eqb c "," then array_items fuel (skip_ws r) (acc ++ [v])
      else None
  | EmptyString => None
  end
  = array_items fuel (String "{"%char t) (acc ++ [v]).
Proof. reflexivity. Qed.

Lemma scan_once_array_open (fuel : nat) (t : string) :
  scan_once (S fuel) (skip_ws (String "["%char (String "{"%char t)))
  = array_items fuel (String "{"%char t) [].
Proof. reflexivity. Qed.

(** The elements of a rendered list decode one after the other, each
    appended to the elements before it. *)
Lemma array_items_render (fuel : nat) (sel : string * string)
    (sels : list (string * string)) (acc : list pyvalue) (rest : string) :
  forallb plain_selection (sel :: sels) = true ->
  array_items (length (sel :: sels) + 4 + fuel)
    (render_items (sel :: sels) +:+ String "]"%char rest) acc
  = Some (PyList (acc ++ map selection_object (sel :: sels)), rest).
Proof.
  revert sel acc. induction sels as [|sel' sels IH]; intros sel acc P.
  - simpl in P. apply andb_prop in P as [P _].
    cbn [length Nat.add render_items]. rewrite array_items_eq.
    rewrite (scan_selection _ _ _ P). reflexivity.
  - cbn [forallb] in P. apply andb_prop in P as [P P'].
    cbn [length Nat.add]. rewrite array_items_eq.
    replace (S (length sels + 4 + fuel))
      with (S (S (S (S (S (length sels + fuel)))))) by lia.
    change (render_items (sel :: sel' :: sels))
      with (render_selection sel +:+ ", " +:+ render_items (sel' :: sels)).
    rewrite !app_assoc_s, (scan_selection _ _ _ P).
    destruct (render_items_head sel' sels) as (t & E).
    rewrite E.
    change (String "{"%char t +:+ String "]"%char rest)
      with (String "{"%char (t +:+ String "]"%char rest)).
    rewrite array_items_next.
    change (String "{"%char (t +:+ String "]"%char rest))
      with (String "{"%char t +:+ String "]"%char rest).
    rewrite <- E.
    replace (S (S (S (S (S (length sels + fuel))))))
      with (length (sel' :: sels) + 4 + fuel) by (simpl; lia).
    rewrite (IH sel' (acc ++ [selection_object sel]) P').
    now rewrite <- app_assoc.
Qed.

Lemma length_render_items (sels : list (string * string)) :
  length sels <= String.length (render_items sels).
Proof.
  induction sels as [|sel sels IH]; [reflexivity|].
  destruct (render_selection_head sel) as (t & E).
  destruct sels as [|sel' sels].
  - cbn [render_items]. rewrite E. simpl. lia.
  - change (render_items (sel :: sel' :: sels))
      with (render_selection sel +:+ ", " +:+ render_items (sel' :: sels)).
    rewrite E, !length_app_s. simpl in IH |- *. lia.
Qed.

(** The reference decoder reads back the text of a list of selections. *)
Lemma loads_render_selections (sels : list (string * string)) :
  forallb plain_selection sels = true ->
  loads (render_selections sels) = inr (PyList (map selection_object sels)).
Proof.
  intros P. destruct sels as [|sel sels]; [reflexivity|].
  unfold loads, render_selections.
  pose proof (length_render_items (sel :: sels)) as L.
  remember (render_items (sel :: sels)) as body eqn:B.
  assert (exists fuel,
             2 * String.length ("[" +:+ body +:+ "]") + 2
             = S (length (sel :: sels) + 4 + fuel)) as (fuel & ->).
  { exists (2 * String.length ("[" +:+ body +:+ "]") + 1 - (length (sel :: sels) + 4)).
    rewrite !length_app_s. simpl String.length. simpl length in L |- *. lia. }
  destruct (render_items_head sel sels) as (t & E). rewrite <- B in E.
  rewrite E.
  change ("[" +:+ String "{"%char t +:+ "]")
    with (String "["%char (String "{"%char (t +:+ "]"))).
  rewrite scan_once_array_open.
  change (String "{"%char (t +:+ "]")) with (String "{"%char t +:+ "]").
  rewrite <- E, B.
  rewrite (array_items_render fuel sel sels [] EmptyString P). reflexivity.
Qed.

Lemma lf_free_app (a b : string) :
  lf_free (a +:+ b) = lf_free a && lf_free b.
Proof.
  induction a as [|c a IH]; simpl; [reflexivity|].
  now rewrite IH, andb_assoc.
Qed.

Lemma lf_free_plain (s : string) : plain_text s = true -> lf_free s = true.
Proof.
  induction s as [|c s IH]; simpl; [reflexivity|].
  intros P. apply andb_prop in P as [Pc Ps]. rewrite (IH Ps), andb_true_r.
  destruct (Ascii.eqb_spec c PyStr.LF) as [->|]; [discriminate Pc | reflexivity].
Qed.

Lemma lf_free_render_selection (sel : string * string) :
  plain_selection sel = true -> lf_free (render_selection sel) = true.
Proof.
  unfold plain_selection, render_selection, quoted. intros P.
  apply andb_prop in P as [Pn Pp].
  repeat (rewrite ?lf_free_app; cbn [lf_free String.append]).
  now rewrite (lf_free_plain _ Pn), (lf_free_plain _ Pp).
Qed.

Lemma lf_free_render_items (sels : list (string * string)) :
  forallb plain_selection sels = true -> lf_free (render_items sels) = true.
Proof.
  induction sels as [|sel sels IH]; [reflexivity|].
  cbn [forallb]. intros P. apply andb_prop in P as [P P'].
  destruct sels as [|sel' sels]; [now apply lf_free_render_selection|].
  change (render_items (sel :: sel' :: sels))
    with (render_selection sel +:+ ", " +:+ render_items (sel' :: sels)).
  rewrite !lf_free_app, (lf_free_render_selection _ P), (IH P'). reflexivity.
Qed.

Lemma lf_free_no_fence (s : string) :
  lf_free s = true -> ~ occurs json_fence_close s.
Proof.
  intros F (a & b & E). rewrite E in F. rewrite lf_free_app in F.
  apply andb_prop in F as [_ F]. discriminate F.
Qed.

End JsonFacts.

(** C8.  When the first fenced block of a decision decodes to a list,
    [extract_agents] returns that list: as many selections as the block
    holds, in the order of the block.  With the reference decoder: a
    decision whose first fenced block is the text of [sels] gives the
    objects of [sels], one for one and in order, whatever follows the block;
    a second block after it is not looked at. *)
Theorem selections_in_order :
  (forall (W : World) (response block : string) (items : list pyvalue),
      first_region json_fence_open json_fence_close response block ->
      json_loads W block = inr (PyList items) ->
      extract_agents W response = inr (PyList items))
  /\ (forall (W : World) (pre post : string) (sels : list (string * string)),
        (forall s, json_loads W s = JsonRef.loads s) ->
        forallb plain_selection sels = true ->
        ~ occurs json_fence_open pre ->
        extract_agents W
          (pre +:+ json_fence_open +:+ render_selections sels
           +:+ json_fence_close +:+ post)
        = inr (PyList (map selection_object sels))
        /\ length (map selection_object sels) = length sels).
Proof.
  split.
  - intros W response block items FR J.
    now rewrite (extract_first_region W _ _ FR).
  - intros W pre post sels J P NO. split; [|apply length_map].
    rewrite (extract_first_region W _ (render_selections sels)).
    + rewrite J. now apply loads_render_selections.
    + exists pre, post. split; [reflexivity|]. split; [exact NO|].
      apply lf_free_no_fence. unfold render_selections.
      rewrite !lf_free_app, (lf_free_render_items _ P). reflexivity.
Qed.

(** Two selections in a first block, a third in a second block: the two
    are returned, in order. *)
Lemma selections_in_order_witness :
  extract_agents Demo.always_echo
    ("I will ask both." +:+ json_fence_open
     +:+ render_selections [("echo", "hi"); ("search", "what is A2A?")]
     +:+ json_fence_close +:+ " and then "
     +:+ json_fence_open +:+ render_selections [("late", "never")]
     +:+ json_fence_close)
  = inr (PyList [selection_object ("echo", "hi");
                 selection_object ("search", "what is A2A?")])
  /\ length (map selection_object [("echo", "hi"); ("search", "what is A2A?")]) = 2.
Proof.
  apply (proj2 selections_in_order Demo.always_echo "I will ask both."
           (" and then " +:+ json_fence_open
            +:+ render_selections [("late", "never")] +:+ json_fence_close)
           [("echo", "hi"); ("search", "what is A2A?")]).
  - intros s. reflexivity.
  - reflexivity.
  - apply find_sub_None. reflexivity.
Defined.

(** * Beyond the claims *)

(** ** How a round fails before it parses *)

Section DecidingFacts.

Variable W : World.
Variable self : Agent.

Lemma deciding_spec (question : string) (round : nat)
    (agent_answers : list AgentAnswer) :
  deciding W self question round agent_answers
  = match get_agents W self round with
    | (ev, inl e) => (ev, inl e)
    | (ev, inr (registry, agent_prompt)) =>
        let d := decide W round question agent_prompt agent_answers in
        (ev ++ CallLLM (fst d) :: flat_map (forwarded self) (fst (snd d)),
         match snd (snd d) with
         | Some e => inl e
         | None => inr (registry, text_of (fst (snd d)))
         end)
    end.
Proof.
  unfold deciding.
  destruct (get_agents W self round) as [ev [e|[registry agent_prompt]]];
    [reflexivity|].
  rewrite bind_inr.
  destruct (decide W round question agent_prompt agent_answers)
    as [prompt [chunks err]].
  unfold tell. rewrite bind_inr, drain_spec.
  destruct err as [e|]; simpl; now rewrite ?app_nil_r.
Qed.

Lemma stream_rounds_deciding_raises (question : string) (round : nat)
    (rounds : list nat) (agent_answers : list AgentAnswer) (evs : list event)
    (e : exn) :
  deciding W self question round agent_answers = (evs, inl e) ->
  stream_rounds W self question (round :: rounds) agent_answers = (evs, inl e).
Proof.
  intros D. cbn [stream_rounds]. unfold stream_round. now rewrite D.
Qed.

Lemma gather_fails (results : list (exn + AgentCard)) :
  (exists e, In (inl e) results) ->
  exists e, In (inl e) results /\ gather results = inl e.
Proof.
  induction results as [|[e|card] results IH]; intros (e0 & H).
  - destruct H.
  - exists e. split; [now left | reflexivity].
  - destruct H as [H|H]; [discriminate|].
    destruct IH as (e1 & I & G); [eauto|].
    exists e1. split; [now right|]. simpl. now rewrite G.
Qed.

Lemma gather_ok (results : list (exn + AgentCard)) (cards : list AgentCard) :
  gather results = inr cards <-> results = map inr cards.
Proof.
  revert cards. induction results as [|[e|card] results IH]; intros cards.
  - simpl. split; [intros [= <-]; reflexivity | now destruct cards].
  - simpl. split; [discriminate | now destruct cards].
  - simpl. destruct (gather results) as [e|cards'] eqn:G.
    + split; [discriminate|]. destruct cards as [|c cards]; [discriminate|].
      intros [= <- E]. apply IH in E. discriminate.
    + split.
      * intros [= <-]. simpl. f_equal. now apply IH.
      * destruct cards as [|c cards]; [discriminate|].
        intros [= <- E]. apply IH in E. now injection E as <-.
Qed.

Lemma yielded_app (evs evs' : list event) :
  yielded (evs ++ evs') = yielded evs ++ yielded evs'.
Proof.
  induction evs as [|[] evs IH]; simpl; rewrite ?IH; reflexivity.
Qed.

Lemma yielded_get_agents (round : nat) :
  yielded (events (get_agents W self round)) = [].
Proof.
  rewrite get_agents_events.
  destruct (agent_urls self) as [[|url urls]|]; try reflexivity.
  generalize (url :: urls). intros l. induction l; simpl; auto.
Qed.

End DecidingFacts.

(** X1.  With a [google.generativeai] that has no [GenerativeModel],
    [stream_llm] raises ImportError when [stream] starts to iterate over it:
    the run ends in that round with ImportError, after the card requests and
    the call of [call_llm], and nothing was yielded. *)
Theorem old_package_aborts (W : World) (self : Agent) (question : string)
    (round : nat) (rounds : list nat) (agent_answers : list AgentAnswer)
    (ev : list event) (registry : gmap string AgentCard) (agent_prompt : string) :
  GenerativeModel W = None ->
  get_agents W self round = (ev, inr (registry, agent_prompt)) ->
  stream_rounds W self question (round :: rounds) agent_answers
  = (ev ++ [CallLLM (fst (decide W round question agent_prompt agent_answers))],
     inl ImportError)
  /\ yielded (events (stream_rounds W self question (round :: rounds) agent_answers))
     = [].
Proof.
  intros G A.
  assert (stream_rounds W self question (round :: rounds) agent_answers
          = (ev ++ [CallLLM (fst (decide W round question agent_prompt agent_answers))],
             inl ImportError)) as E.
  { apply stream_rounds_deciding_raises. rewrite deciding_spec, A.
    unfold decide, call_llm, stream_llm. rewrite G. reflexivity. }
  split; [exact E|]. rewrite E. unfold events. simpl.
  rewrite yielded_app. simpl. rewrite app_nil_r.
  apply (f_equal events) in A. unfold events in A at 2. simpl in A.
  rewrite <- A. apply yielded_get_agents.
Qed.

(** The old package: one card request, the call, ImportError, no chunk. *)
Lemma old_package_aborts_witness :
  stream Cases.old_package Demo.client "ping"
  = ([CardRequest Demo.echo_url] ++ [CallLLM "ping / echo / "], inl ImportError)
  /\ yielded (events (stream Cases.old_package Demo.client "ping")) = [].
Proof.
  apply (old_package_aborts Cases.old_package Demo.client "ping" 0 [1; 2] []
           [CardRequest Demo.echo_url] (registry_of [Demo.echo_card]) "echo").
  - reflexivity.
  - vm_compute; reflexivity.
Defined.

(** X2.  When the stream of the model ends with an exception, the chunks it
    gave before are forwarded, then the run ends with that exception: the
    decision is not parsed, no agent is asked, no later round starts. *)
Theorem model_failure_aborts (W : World) (self : Agent) (question : string)
    (round : nat) (rounds : list nat) (agent_answers : list AgentAnswer)
    (ev : list event) (registry : gmap string AgentCard) (agent_prompt : string)
    (chunks : list string) (e : exn) :
  get_agents W self round = (ev, inr (registry, agent_prompt)) ->
  stream_llm W round (fst (decide W round question agent_prompt agent_answers))
  = (chunks, Some e) ->
  stream_rounds W self question (round :: rounds) agent_answers
  = (ev ++ CallLLM (fst (decide W round question agent_prompt agent_answers))
        :: flat_map (forwarded self) chunks,
     inl e).
Proof.
  intros A S. apply stream_rounds_deciding_raises. rewrite deciding_spec, A.
  unfold decide, call_llm in S |- *. simpl in S |- *. now rewrite S.
Qed.

Lemma model_failure_aborts_witness :
  stream Cases.broken_model Demo.client "ping"
  = ([CardRequest Demo.echo_url]
     ++ CallLLM "ping / echo / " :: [Yielded "Let me "],
     inl (CollaboratorError "provider")).
Proof.
  apply (model_failure_aborts Cases.broken_model Demo.client "ping" 0 [1; 2] []
           [CardRequest Demo.echo_url] (registry_of [Demo.echo_card]) "echo"
           ["Let me "] (CollaboratorError "provider")).
  - vm_compute; reflexivity.
  - reflexivity.
Defined.

(** X3.  When the card of one endpoint cannot be fetched, [get_agents]
    raises, and so does the run: every endpoint was asked for its card, in
    order, no directory was built from the cards that came, and the model
    was never called. *)
Theorem directory_failure_aborts (W : World) (self : Agent) (question : string)
    (round : nat) (rounds : list nat) (agent_answers : list AgentAnswer)
    (urls : list string) :
  agent_urls self = Some urls ->
  (exists url e, In url urls /\ get_agent_card W round url = inl e) ->
  exists url e,
    In url urls /\ get_agent_card W round url = inl e
    /\ get_agents W self round = (map CardRequest urls, inl e)
    /\ stream_rounds W self question (round :: rounds) agent_answers
       = (map CardRequest urls, inl e).
Proof.
  intros U (url & e & I & F).
  destruct (gather_fails (map (get_agent_card W round) urls)) as (e' & I' & G).
  { exists e. rewrite <- F. now apply in_map. }
  apply in_map_iff in I' as (url' & F' & I').
  assert (get_agents W self round = (map CardRequest urls, inl e')) as A.
  { unfold get_agents. rewrite U. destruct urls as [|u urls]; [destruct I|].
    unfold tell, lift. rewrite bind_inr, G. simpl. now rewrite app_nil_r. }
  exists url', e'. repeat split; auto.
  apply stream_rounds_deciding_raises. now rewrite deciding_spec, A.
Qed.

Lemma directory_failure_aborts_witness :
  exists url e,
    In url [Demo.echo_url; Cases.down_url; Demo.echo_url]
    /\ get_agent_card Demo.always_echo 0 url = inl e
    /\ get_agents Demo.always_echo Cases.three_urls 0
       = (map CardRequest [Demo.echo_url; Cases.down_url; Demo.echo_url], inl e)
    /\ stream_rounds Demo.always_echo Cases.three_urls "ping" [0; 1; 2] []
       = (map CardRequest [Demo.echo_url; Cases.down_url; Demo.echo_url], inl e).
Proof.
  apply (directory_failure_aborts Demo.always_echo Cases.three_urls "ping" 0
           [1; 2] [] [Demo.echo_url; Cases.down_url; Demo.echo_url]).
  - reflexivity.
  - exists Cases.down_url, (CollaboratorError "unreachable").
    split; [right; left; reflexivity | reflexivity].
Defined.

(** ** The directory *)

Lemma registry_of_snoc (cards : list AgentCard) (card : AgentCard) :
  registry_of (cards ++ [card])
  = <[card_name card := card]> (registry_of cards).
Proof. unfold registry_of. now rewrite foldl_app. Qed.

Lemma registry_of_last_named (cards : list AgentCard) (n : string) :
  registry_of cards !! n = last_named n cards.
Proof.
  induction cards as [|card cards IH] using rev_ind; [reflexivity|].
  rewrite registry_of_snoc. unfold last_named. rewrite rev_app_distr. simpl.
  destruct (String.eqb_spec (card_name card) n) as [->|NE].
  - now rewrite lookup_insert_eq.
  - now rewrite lookup_insert_ne.
Qed.

(** X4.  For a directory built from [cards], looking a name up gives the
    last card of the list that has this name: a later endpoint replaces an
    earlier one that advertises the same name.  So the card found for a name
    has that name and is one of the cards fetched, and a name no card has is
    no key. *)
Theorem registry_lookup (cards : list AgentCard) (n : string) :
  registry_of cards !! n = last_named n cards
  /\ (forall card, registry_of cards !! n = Some card ->
        card_name card = n /\ In card cards)
  /\ (registry_of cards !! n = None <->
      forall card, In card cards -> card_name card <> n).
Proof.
  pose proof (registry_of_last_named cards n) as L.
  split; [exact L|]. rewrite L. unfold last_named. split.
  - intros card F. apply List.find_some in F as [I E].
    apply String.eqb_eq in E. split; [exact E|]. now apply in_rev.
  - split.
    + intros F card I E. apply in_rev in I.
      pose proof (List.find_none _ _ F card I) as N. simpl in N.
      apply String.eqb_neq in N. contradiction.
    + intros H. destruct (List.find _ (rev cards)) as [card|] eqn:F; [|reflexivity].
      apply List.find_some in F as [I E]. apply String.eqb_eq in E.
      apply in_rev in I. now destruct (H card I).
Qed.

(** X5.  With at least one endpoint, [get_agents] ends normally exactly when
    every card could be fetched; it then returns the directory of all the
    cards and the prompt rendered from all of them, in the order of the
    endpoints, having asked each endpoint once. *)
Theorem get_agents_all_or_nothing (W : World) (self : Agent) (round : nat)
    (url : string) (urls : list string) :
  agent_urls self = Some (url :: urls) ->
  events (get_agents W self round) = map CardRequest (url :: urls)
  /\ (forall registry agent_prompt,
        outcome (get_agents W self round) = inr (registry, agent_prompt)
        <-> exists cards,
              map (get_agent_card W round) (url :: urls) = map inr cards
              /\ registry = registry_of cards
              /\ agent_prompt = agents_template W cards).
Proof.
  intros U. split; [now rewrite get_agents_events, U|].
  intros registry agent_prompt. unfold get_agents. rewrite U.
  unfold tell, lift. rewrite bind_inr. unfold outcome.
  destruct (gather (map (get_agent_card W round) (url :: urls)))
    as [e|cards] eqn:G; simpl.
  - split; [discriminate|]. intros (cards & E & _).
    apply (proj2 (gather_ok _ _)) in E. cbn [map] in E, G. congruence.
  - apply (proj1 (gather_ok _ _)) in G. split.
    + intros [= <- <-]. eauto.
    + intros (cards' & E & -> & ->). cbn [map] in E, G.
      assert (@map AgentCard (exn + AgentCard) inr cards = map inr cards') as E'
        by congruence.
      assert (cards = cards') as ->; [|reflexivity].
      clear -E'. rename E' into E. revert cards' E.
      induction cards as [|c cards IH]; intros [|c' cards'] E;
        try discriminate; [reflexivity|].
      injection E as -> E. f_equal. now apply IH.
Qed.

(** Two endpoints with the same name: the directory holds the second. *)
Lemma get_agents_all_or_nothing_witness :
  events (get_agents Cases.mirrored Cases.two_urls 0)
  = map CardRequest [Demo.echo_url; Cases.mirror_url]
  /\ outcome (get_agents Cases.mirrored Cases.two_urls 0)
     = inr (registry_of [Demo.echo_card; Cases.mirror_card], "echo, echo")
  /\ registry_of [Demo.echo_card; Cases.mirror_card] !! "echo"
     = Some Cases.mirror_card.
Proof.
  destruct (get_agents_all_or_nothing Cases.mirrored Cases.two_urls 0
              Demo.echo_url [Cases.mirror_url] eq_refl) as (E & O).
  split; [exact E|]. split.
  - apply O. exists [Demo.echo_card; Cases.mirror_card]. repeat split.
  - vm_compute; reflexivity.
Defined.

(** ** What a decoded block can be *)

(** X6.  When the fenced block decodes to JSON that is no list, the run ends
    in that round right after the deciding phase: normally when the value is
    falsy (null, false, zero, the empty string, the empty object), with
    TypeError when it is truthy (a number, true, a string, an object), since
    the loop over the selections cannot go through it or index what it
    yields. *)
Theorem not_a_list (W : World) (self : Agent) (question : string)
    (round : nat) (rounds : list nat) (agent_answers : list AgentAnswer)
    (evs : list event) (registry : gmap string AgentCard) (response : string)
    (v : pyvalue) :
  deciding W self question round agent_answers = (evs, inr (registry, response)) ->
  extract_agents W response = inr v ->
  (forall items, v <> PyList items) ->
  stream_rounds W self question (round :: rounds) agent_answers
  = (evs, if truthy v then inl TypeError else inr tt).
Proof.
  intros D E NL.
  rewrite stream_rounds_cons, (stream_round_decided _ _ _ _ _ _ _ _ D), E.
  destruct v as [|[]|z|x|[|c s]|items|[|[k x] items]]; simpl;
    try reflexivity; rewrite ?app_nil_r; try reflexivity.
  - destruct (z =? 0)%Z; reflexivity.
  - destruct (float_is_zero x); reflexivity.
  - now destruct (NL items).
Qed.

Lemma not_a_list_witness :
  stream Cases.number_block Demo.client "ping"
  = ([CardRequest Demo.echo_url; CallLLM "ping / echo / ";
      Yielded (Demo.lit "```json|42|```")], inl TypeError)
  /\ stream Cases.null_block Demo.client "ping"
     = ([CardRequest Demo.echo_url; CallLLM "ping / echo / ";
         Yielded (Demo.lit "```json|null|```")], inr tt)
  /\ stream Cases.object_block Demo.client "ping"
     = ([CardRequest Demo.echo_url; CallLLM "ping / echo / ";
         Yielded (Demo.lit "```json|{'name': 'echo', 'prompt': 'hi'}|```")],
        inl TypeError).
Proof.
  split; [|split].
  - apply (not_a_list Cases.number_block Demo.client "ping" 0 [1; 2] [] _
             (registry_of [Demo.echo_card]) (Demo.lit "```json|42|```") (PyInt 42));
      [vm_compute; reflexivity | vm_compute; reflexivity | discriminate].
  - apply (not_a_list Cases.null_block Demo.client "ping" 0 [1; 2] [] _
             (registry_of [Demo.echo_card]) (Demo.lit "```json|null|```") PyNone);
      [vm_compute; reflexivity | vm_compute; reflexivity | discriminate].
  - apply (not_a_list Cases.object_block Demo.client "ping" 0 [1; 2] [] _
             (registry_of [Demo.echo_card])
             (Demo.lit "```json|{'name': 'echo', 'prompt': 'hi'}|```")
             (selection_object ("echo", "hi")));
      [vm_compute; reflexivity | vm_compute; reflexivity | discriminate].
Defined.

(** X7.  A selection that is no object, or whose name is no string, ends the
    run when the loop reaches it, before any event of its own: with
    TypeError when the selection is no object or its name is a list or an
    object, with the KeyError of the name when the name is null, a boolean
    or a number. *)
Theorem odd_selection_aborts (W : World) (self : Agent) (question : string)
    (round : nat) (rounds : list nat) (agent_answers answers' : list AgentAnswer)
    (evs evb : list event) (registry : gmap string AgentCard)
    (response : string) (before rest : list pyvalue) (agent : pyvalue) :
  deciding W self question round agent_answers = (evs, inr (registry, response)) ->
  extract_agents W response = inr (PyList (before ++ agent :: rest)) ->
  dispatch_all W self round 0 registry before agent_answers = (evb, inr answers') ->
  ((forall fields, agent <> PyDict fields) ->
   stream_rounds W self question (round :: rounds) agent_answers
   = (evs ++ evb, inl TypeError))
  /\ (forall fields name,
        agent = PyDict fields ->
        dict_get fields "name" = Some name ->
        (forall n, name <> PyStr n) ->
        stream_rounds W self question (round :: rounds) agent_answers
        = (evs ++ evb,
           inl match name with
               | PyList _ | PyDict _ => TypeError
               | _ => KeyError name
               end)).
Proof.
  intros D E B. split.
  - intros NO.
    rewrite (stream_rounds_dispatch_raises W self _ _ _ _ _ _ _ [] _ _ _ _ _
               TypeError D E B); [now rewrite app_nil_r|].
    destruct agent; try reflexivity. now destruct (NO items).
  - intros fields name -> N NS.
    rewrite (stream_rounds_dispatch_raises W self _ _ _ _ _ _ _ [] _ _ _ _ _
               (match name with
                | PyList _ | PyDict _ => TypeError
                | _ => KeyError name
                end) D E B); [now rewrite app_nil_r|].
    unfold dispatch, lift. simpl. rewrite N. simpl.
    destruct name; try reflexivity. now destruct (NS s).
Qed.

Lemma odd_selection_aborts_witness :
  stream Cases.bare_names Demo.client "ping"
  = ([CardRequest Demo.echo_url; CallLLM "ping / echo / ";
      Yielded (Demo.lit "```json|['echo']|```")] ++ [], inl TypeError)
  /\ stream Cases.numbered_name Demo.client "ping"
     = ([CardRequest Demo.echo_url; CallLLM "ping / echo / ";
         Yielded (Demo.lit "```json|[{'name': 7, 'prompt': 'hi'}]|```")] ++ [],
        inl (KeyError (PyInt 7)))
  /\ stream Cases.listed_name Demo.client "ping"
     = ([CardRequest Demo.echo_url; CallLLM "ping / echo / ";
         Yielded (Demo.lit "```json|[{'name': ['echo'], 'prompt': 'hi'}]|```")] ++ [],
        inl TypeError).
Proof.
  split; [|split].
  - apply (proj1 (odd_selection_aborts Cases.bare_names Demo.client "ping" 0
                    [1; 2] [] [] _ [] (registry_of [Demo.echo_card])
                    (Demo.lit "```json|['echo']|```") [] [] (PyStr "echo")
                    ltac:(vm_compute; reflexivity) ltac:(vm_compute; reflexivity)
                    eq_refl)).
    discriminate.
  - apply (proj2 (odd_selection_aborts Cases.numbered_name Demo.client "ping" 0
                    [1; 2] [] [] _ [] (registry_of [Demo.echo_card])
                    (Demo.lit "```json|[{'name': 7, 'prompt': 'hi'}]|```") [] []
                    (PyDict [("name", PyInt 7); ("prompt", PyStr "hi")])
                    ltac:(vm_compute; reflexivity) ltac:(vm_compute; reflexivity)
                    eq_refl)
             [("name", PyInt 7); ("prompt", PyStr "hi")] (PyInt 7));
      [reflexivity | reflexivity | discriminate].
  - apply (proj2 (odd_selection_aborts Cases.listed_name Demo.client "ping" 0
                    [1; 2] [] [] _ [] (registry_of [Demo.echo_card])
                    (Demo.lit "```json|[{'name': ['echo'], 'prompt': 'hi'}]|```")
                    [] []
                    (PyDict [("name", PyList [PyStr "echo"]); ("prompt", PyStr "hi")])
                    ltac:(vm_compute; reflexivity) ltac:(vm_compute; reflexivity)
                    eq_refl)
             [("name", PyList [PyStr "echo"]); ("prompt", PyStr "hi")]
             (PyList [PyStr "echo"]));
      [reflexivity | reflexivity | discriminate].
Defined.



(** X9.  An agent without endpoints has an empty directory in every round:
    the model is asked with an empty text for the agents, and the first
    selection with a string for name ends the run with the KeyError of that
    name, no marker yielded and no agent asked. *)
Theorem no_endpoints_no_dispatch (W : World) (self : Agent) (question : string)
    (round : nat) (rounds : list nat) (agent_answers : list AgentAnswer)
    (chunks : list string) (agent : pyvalue) (rest : list pyvalue) (n : string) :
  agent_urls self = None \/ agent_urls self = Some [] ->
  stream_llm W round (fst (decide W round question EmptyString agent_answers))
  = (chunks, None) ->
  extract_agents W (text_of chunks) = inr (PyList (agent :: rest)) ->
  py_getitem agent "name" = inr (PyStr n) ->
  stream_rounds W self question (round :: rounds) agent_answers
  = (CallLLM (fst (decide W round question EmptyString agent_answers))
     :: flat_map (forwarded self) chunks,
     inl (KeyError (PyStr n))).
Proof.
  intros U S E N.
  assert (get_agents W self round = ([], inr (∅, EmptyString))) as G
    by (unfold get_agents; now destruct U as [-> | ->]).
  assert (deciding W self question round agent_answers
          = (CallLLM (fst (decide W round question EmptyString agent_answers))
             :: flat_map (forwarded self) chunks,
             inr (∅, text_of chunks))) as D.
  { rewrite deciding_spec, G. unfold decide, call_llm in S |- *.
    simpl in S |- *. now rewrite S. }
  rewrite (stream_rounds_dispatch_raises W self _ _ _ _ agent_answers _ []
             [] _ _ [] rest agent (KeyError (PyStr n)) D E eq_refl).
  - now rewrite !app_nil_r.
  - unfold dispatch, lift. rewrite N, bind_inr. simpl. now rewrite lookup_empty.
Qed.

Lemma no_endpoints_no_dispatch_witness :
  stream Demo.always_echo Cases.alone "ping"
  = (CallLLM "ping /  / "
     :: [Yielded "Asking echo.";
         Yielded (Demo.lit "|```json|[{'name': 'echo', 'prompt': 'hi'}]|```|")],
     inl (KeyError (PyStr "echo"))).
Proof.
  apply (no_endpoints_no_dispatch Demo.always_echo Cases.alone "ping" 0 [1; 2] []
           ["Asking echo.";
            Demo.lit "|```json|[{'name': 'echo', 'prompt': 'hi'}]|```|"]
           (selection_object ("echo", "hi")) [] "echo").
  - left. reflexivity.
  - reflexivity.
  - vm_compute; reflexivity.
  - reflexivity.
Defined.

(** ** A round that goes on *)

Section BlockFacts.

Variable W : World.
Variable self : Agent.

Lemma dispatch_all_blocks (round pos : nat) (registry : gmap string AgentCard)
    (items : list pyvalue) (answers answers' : list AgentAnswer)
    (evd : list event) :
  dispatch_all W self round pos registry items answers = (evd, inr answers') ->
  exists blocks,
    length blocks = length items
    /\ evd = flat_map (dispatch_block self) blocks
    /\ answers' = answers ++ map (fun b => snd (fst b)) blocks
    /\ Forall (fun b =>
                 registry !! ans_name (snd (fst b)) = Some (fst (fst b))
                 /\ ans_answer (snd (fst b)) = answer_of (text_of (snd b)))
         blocks.
Proof.
  revert pos answers evd. induction items as [|agent items IH];
    intros pos answers evd H.
  - simpl in H. injection H as <- <-. exists []. simpl.
    now rewrite app_nil_r.
  - cbn [dispatch_all] in H.
    destruct (dispatch W self round pos registry agent) as [ev1 [e|answer]] eqn:D;
      [discriminate|].
    rewrite bind_inr in H.
    destruct (dispatch_all W self round (S pos) registry items (answers ++ [answer]))
      as [evr [e|a]] eqn:R; [discriminate|].
    simpl in H. injection H as <- <-.
    destruct (IH _ _ _ R) as (blocks & Len & Ev & An & F).
    destruct (dispatch_inv W self round pos registry agent answer)
      as (card & chunks & _ & L & _ & _ & A & Ev1); [now rewrite D|].
    rewrite D in Ev1. unfold events in Ev1. simpl in Ev1.
    exists ((card, answer, chunks) :: blocks). split; [simpl; now rewrite Len|].
    split; [simpl; now rewrite Ev1, Ev|].
    split; [simpl; now rewrite An, <- app_assoc|].
    constructor; [simpl; auto | exact F].
Qed.

End BlockFacts.



(** ** The callback *)

Section CallbackFacts.

Variable W : World.
Variable self : Agent.

Local Abbreviation quiet := (fun e => negb (is_Callback e)) (only parsing).

Lemma erase_bind {A B} (m : M A) (k : A -> M B) :
  erase_callbacks (bind m k)
  = bind (erase_callbacks m) (fun a => erase_callbacks (k a)).
Proof.
  destruct m as [evs [e|a]]; unfold erase_callbacks, events, outcome; simpl.
  - reflexivity.
  - destruct (k a) as [evs' x]. simpl. now rewrite List.filter_app.
Qed.

Lemma erase_lift {A} (x : exn + A) : erase_callbacks (lift x) = lift x.
Proof. reflexivity. Qed.

Lemma erase_get_agents (round : nat) :
  get_agents W (without_callback self) round
  = erase_callbacks (get_agents W self round).
Proof.
  unfold erase_callbacks. rewrite get_agents_events.
  change (get_agents W (without_callback self) round) with (get_agents W self round).
  rewrite (run_eta (get_agents W self round)) at 1. rewrite get_agents_events.
  f_equal. destruct (agent_urls self) as [[|url urls]|]; try reflexivity.
  generalize (url :: urls). intros l.
  induction l as [|u l IH]; simpl; [reflexivity | now rewrite <- IH].
Qed.

Lemma erase_forwarded (chunks : list string) :
  flat_map (forwarded (without_callback self)) chunks
  = List.filter quiet (flat_map (forwarded self) chunks).
Proof.
  induction chunks as [|c chunks IH]; [reflexivity|].
  simpl. rewrite List.filter_app, <- IH. f_equal.
  unfold forwarded. now destruct (token_stream_callback self).
Qed.

Lemma erase_drain (g : generator string) :
  drain (without_callback self) g = erase_callbacks (drain self g).
Proof.
  destruct g as [chunks err]. rewrite !drain_spec. unfold erase_callbacks.
  simpl. now rewrite erase_forwarded.
Qed.

Lemma erase_dispatch (round pos : nat) (registry : gmap string AgentCard)
    (agent : pyvalue) :
  dispatch W (without_callback self) round pos registry agent
  = erase_callbacks (dispatch W self round pos registry agent).
Proof.
  unfold dispatch. rewrite erase_bind, erase_lift. apply bind_ext. intros name.
  rewrite erase_bind, erase_lift. apply bind_ext. intros entry.
  rewrite erase_bind. apply bind_ext. intros _.
  rewrite erase_bind, erase_lift. apply bind_ext. intros prompt.
  rewrite erase_bind. apply bind_ext. intros _.
  rewrite erase_bind, erase_drain. apply bind_ext. intros text.
  rewrite erase_bind. reflexivity.
Qed.

Lemma erase_dispatch_all (round pos : nat) (registry : gmap string AgentCard)
    (items : list pyvalue) (answers : list AgentAnswer) :
  dispatch_all W (without_callback self) round pos registry items answers
  = erase_callbacks (dispatch_all W self round pos registry items answers).
Proof.
  revert pos answers. induction items as [|agent items IH]; intros pos answers.
  - reflexivity.
  - cbn [dispatch_all]. rewrite erase_bind, erase_dispatch.
    apply bind_ext. intros answer. apply IH.
Qed.

Lemma erase_deciding (question : string) (round : nat)
    (answers : list AgentAnswer) :
  deciding W (without_callback self) question round answers
  = erase_callbacks (deciding W self question round answers).
Proof.
  unfold deciding. rewrite erase_bind, erase_get_agents.
  apply bind_ext. intros [registry agent_prompt].
  destruct (decide W round question agent_prompt answers) as [prompt g].
  rewrite erase_bind. apply bind_ext. intros _.
  rewrite erase_bind, erase_drain. reflexivity.
Qed.

Lemma erase_stream_round (question : string) (round : nat)
    (answers : list AgentAnswer) :
  stream_round W (without_callback self) question round answers
  = erase_callbacks (stream_round W self question round answers).
Proof.
  unfold stream_round. rewrite erase_bind, erase_deciding.
  apply bind_ext. intros [registry response].
  rewrite erase_bind, erase_lift. apply bind_ext. intros agents.
  destruct (truthy agents); [|reflexivity].
  rewrite erase_bind, erase_lift. apply bind_ext. intros items.
  rewrite erase_bind, erase_dispatch_all. reflexivity.
Qed.

Lemma erase_stream_rounds (question : string) (rounds : list nat)
    (answers : list AgentAnswer) :
  stream_rounds W (without_callback self) question rounds answers
  = erase_callbacks (stream_rounds W self question rounds answers).
Proof.
  revert answers. induction rounds as [|round rounds IH]; intros answers.
  - reflexivity.
  - cbn [stream_rounds]. rewrite erase_bind, erase_stream_round.
    apply bind_ext. intros [answers'|]; [apply IH | reflexivity].
Qed.

Lemma yielded_quiet (evs : list event) :
  yielded (List.filter quiet evs) = yielded evs.
Proof.
  induction evs as [|[] evs IH]; simpl; rewrite ?IH; reflexivity.
Qed.

Lemma callbacks_quiet (evs : list event) :
  List.filter is_Callback (List.filter quiet evs) = [].
Proof.
  induction evs as [|[] evs IH]; simpl; rewrite ?IH; reflexivity.
Qed.

Lemma no_callback_events (question : string) :
  token_stream_callback self = false ->
  List.filter is_Callback (events (stream W self question)) = [].
Proof.
  intros F.
  assert (without_callback self = self) as E
    by (destruct self; simpl in F; subst; reflexivity).
  unfold stream. rewrite <- E, erase_stream_rounds.
  unfold erase_callbacks, events at 1. simpl. apply callbacks_quiet.
Qed.

End CallbackFacts.



(** ** The answer taken from a region *)

Section StripFacts.

Import PyStr.

Lemma lstrip_head (s : string) (c : ascii) (rest : string) :
  lstrip s = String c rest -> isspace c = false.
Proof.
  induction s as [|x s IH]; simpl; [discriminate|].
  destruct (isspace x) eqn:X; [exact IH|]. now intros [= <- _].
Qed.

Lemma rstrip_head (c : ascii) (s : string) :
  isspace c = false -> exists rest, rstrip (String c s) = String c rest.
Proof.
  intros X. simpl. destruct (rstrip s); rewrite ?X; unfold chr; eauto.
Qed.

Lemma rstrip_last (s init : string) (c : ascii) :
  rstrip s = init +:+ chr c -> isspace c = false.
Proof.
  revert init. induction s as [|x s IH]; intros init E.
  - destruct init; discriminate.
  - simpl in E. destruct (rstrip s) as [|y r] eqn:R.
    + destruct (isspace x) eqn:X; [destruct init; discriminate|].
      destruct init as [|i init]; [now injection E as <- | ].
      destruct init; discriminate.
    + destruct init as [|i init]; [discriminate|].
      injection E as _ E. now apply (IH init).
Qed.

Lemma strip_trimmed (s : string) : trimmed (strip s).
Proof.
  unfold trimmed, strip. split.
  - intros c rest E. destruct (lstrip s) as [|x t] eqn:L; [discriminate|].
    pose proof (lstrip_head _ _ _ L) as X.
    destruct (rstrip_head x t X) as (rest' & R). rewrite R in E.
    now injection E as <- _.
  - intros init c E. now apply (rstrip_last _ _ _ E).
Qed.

Lemma lstrip_blank (s : string) :
  forallb isspace (list_ascii_of_string s) = true -> lstrip s = EmptyString.
Proof.
  induction s as [|x s IH]; simpl; [reflexivity|].
  intros H. apply andb_prop in H as [X S]. rewrite X. now apply IH.
Qed.

End StripFacts.

(** X12.  An answer taken from an Answer region never starts and never ends
    with whitespace, and a region that holds nothing but whitespace gives
    the empty answer. *)
Theorem answer_from_region_is_trimmed (response : string) :
  has_region "<Answer>" "</Answer>" response ->
  trimmed (answer_of response)
  /\ (forall inner,
        first_region "<Answer>" "</Answer>" response inner ->
        forallb PyStr.isspace (list_ascii_of_string inner) = true ->
        answer_of response = EmptyString).
Proof.
  intros R. destruct (has_region_search _ _ _ R) as (g & S).
  unfold answer_of. rewrite S. split; [apply strip_trimmed|].
  intros inner FR B.
  rewrite (first_region_search _ _ _ _ no_border_answer_open
             no_border_answer_close FR) in S.
  injection S as <-. unfold PyStr.strip. now rewrite (lstrip_blank _ B).
Qed.

Lemma answer_from_region_is_trimmed_witness :
  trimmed (answer_of "so: <Answer>   </Answer> done")
  /\ (forall inner,
        first_region "<Answer>" "</Answer>" "so: <Answer>   </Answer> done" inner ->
        forallb PyStr.isspace (list_ascii_of_string inner) = true ->
        answer_of "so: <Answer>   </Answer> done" = EmptyString).
Proof.
  apply (answer_from_region_is_trimmed "so: <Answer>   </Answer> done").
  exists "so: ", "   ", " done". reflexivity.
Defined.

(** ** The caller *)

Section MainFacts.

Variables Fore_CYAN Fore_RESET : string.

Lemma startswith_app (pat rest : string) : startswith (pat +:+ rest) pat = true.
Proof. unfold startswith. now rewrite strip_prefix_app. Qed.

Lemma startswith_head (s pat : string) (c : ascii) :
  startswith s (String c pat) = true -> startswith s (PyStr.chr c) = true.
Proof.
  unfold startswith. destruct s as [|x s]; simpl; [discriminate|].
  destruct (Ascii.eqb c x); [|discriminate]. now destruct s.
Qed.

End MainFacts.


(** ** The directory over the rounds *)

Section RefreshFacts.

Variable W : World.
Variable self : Agent.

Lemma card_requests_bind {A B} (m : M A) (k : A -> M B) :
  (forall a, List.filter is_CardRequest (events (k a)) = []) ->
  List.filter is_CardRequest (events (bind m k))
  = List.filter is_CardRequest (events m).
Proof.
  intros H. rewrite events_bind, List.filter_app.
  destruct (outcome m); [|rewrite H]; now rewrite app_nil_r.
Qed.

Lemma card_requests_drain (g : generator string) :
  List.filter is_CardRequest (events (drain self g)) = [].
Proof.
  destruct g as [chunks err]. rewrite drain_spec. unfold events. simpl.
  now apply filter_forwarded.
Qed.

Lemma card_requests_dispatch (round pos : nat) (registry : gmap string AgentCard)
    (agent : pyvalue) :
  List.filter is_CardRequest (events (dispatch W self round pos registry agent))
  = [].
Proof.
  unfold dispatch.
  rewrite card_requests_bind; [reflexivity|]. intros name.
  rewrite card_requests_bind; [reflexivity|]. intros entry.
  rewrite card_requests_bind; [reflexivity|]. intros _.
  rewrite card_requests_bind; [reflexivity|]. intros prompt.
  rewrite card_requests_bind; [reflexivity|]. intros _.
  rewrite card_requests_bind; [apply card_requests_drain|]. intros text.
  rewrite card_requests_bind; reflexivity.
Qed.

Lemma card_requests_dispatch_all (round pos : nat)
    (registry : gmap string AgentCard) (items : list pyvalue)
    (answers : list AgentAnswer) :
  List.filter is_CardRequest
    (events (dispatch_all W self round pos registry items answers)) = [].
Proof.
  revert pos answers. induction items as [|agent items IH]; intros pos answers.
  - reflexivity.
  - cbn [dispatch_all]. rewrite card_requests_bind; [|intros a; apply IH].
    apply card_requests_dispatch.
Qed.

Lemma card_requests_get_agents (round : nat) :
  List.filter is_CardRequest (events (get_agents W self round))
  = map CardRequest (urls_of self)
  /\ events (get_agents W self round) = map CardRequest (urls_of self).
Proof.
  rewrite get_agents_events. unfold urls_of.
  destruct (agent_urls self) as [[|url urls]|]; simpl; auto.
  split; [|reflexivity]. f_equal.
  induction urls as [|u urls IH]; simpl; [reflexivity | now rewrite IH].
Qed.

Lemma card_requests_stream_round (question : string) (round : nat)
    (answers : list AgentAnswer) :
  List.filter is_CardRequest (events (stream_round W self question round answers))
  = map CardRequest (urls_of self).
Proof.
  unfold stream_round. rewrite card_requests_bind.
  - unfold deciding. rewrite card_requests_bind;
      [apply card_requests_get_agents|].
    intros [registry agent_prompt].
    destruct (decide W round question agent_prompt answers) as [prompt g].
    rewrite card_requests_bind; [reflexivity|]. intros _.
    rewrite card_requests_bind; [apply card_requests_drain | reflexivity].
  - intros [registry response].
    rewrite card_requests_bind; [reflexivity|]. intros agents.
    destruct (truthy agents); [|reflexivity].
    rewrite card_requests_bind; [reflexivity|]. intros items.
    rewrite card_requests_bind; [apply card_requests_dispatch_all | reflexivity].
Qed.

End RefreshFacts.

(** X14.  Nothing of the directory is kept from one round to the next:
    every round, however it ends, asks each endpoint of the agent for its
    card once, in the order of the endpoints and before anything else, and
    asks for no card later in the round.  A run of three rounds that all go
    on has asked every endpoint three times. *)
Theorem directory_is_refetched (W : World) (self : Agent) (question : string) :
  (forall round answers,
      List.filter is_CardRequest
        (events (stream_round W self question round answers))
      = map CardRequest (urls_of self)
      /\ exists rest,
           events (stream_round W self question round answers)
           = map CardRequest (urls_of self) ++ rest
           /\ List.filter is_CardRequest rest = [])
  /\ (forall (e0 e1 e2 : list event) (a1 a2 a3 : list AgentAnswer),
        stream_round W self question 0 [] = (e0, inr (Some a1)) ->
        stream_round W self question 1 a1 = (e1, inr (Some a2)) ->
        stream_round W self question 2 a2 = (e2, inr (Some a3)) ->
        List.filter is_CardRequest (events (stream W self question))
        = map CardRequest (urls_of self ++ urls_of self ++ urls_of self)).
Proof.
  split.
  - intros round answers.
    pose proof (card_requests_stream_round W self question round answers) as F.
    split; [exact F|].
    unfold stream_round in F |- *. rewrite events_bind in F |- *.
    unfold deciding in F |- *. rewrite events_bind in F |- *.
    destruct (card_requests_get_agents W self round) as (FG & EG).
    rewrite EG in F |- *. rewrite <- app_assoc in F |- *.
    eexists. split; [reflexivity|].
    rewrite List.filter_app in F.
    rewrite EG in FG. rewrite FG in F. rewrite <- (app_nil_r (map CardRequest (urls_of self))) in F at 2.
    now apply app_inv_head in F.
  - intros e0 e1 e2 a1 a2 a3 R0 R1 R2.
    pose proof (card_requests_stream_round W self question 0 []) as F0.
    pose proof (card_requests_stream_round W self question 1 a1) as F1.
    pose proof (card_requests_stream_round W self question 2 a2) as F2.
    rewrite R0 in F0. rewrite R1 in F1. rewrite R2 in F2.
    unfold events in F0, F1, F2. simpl in F0, F1, F2.
    unfold stream. cbn [seq].
    rewrite stream_rounds_cons, R0, stream_rounds_cons, R1,
      stream_rounds_cons, R2.
    unfold events. simpl. rewrite app_nil_r, !List.filter_app, F0, F1, F2.
    now rewrite !map_app.
Qed.

Lemma directory_is_refetched_witness :
  List.filter is_CardRequest (events (stream Demo.always_echo Demo.client "ping"))
  = map CardRequest ([Demo.echo_url] ++ [Demo.echo_url] ++ [Demo.echo_url]).
Proof.
  eapply (proj2 (directory_is_refetched Demo.always_echo Demo.client "ping"));
    vm_compute; reflexivity.
Defined.

(** X15.  The directory a round works with holds, under each of its names,
    a card of that name that one of the agent's endpoints served in this
    very round. *)
Theorem directory_keys_are_names (W : World) (self : Agent) (round : nat)
    (ev : list event) (registry : gmap string AgentCard) (agent_prompt : string)
    (n : string) (card : AgentCard) :
  get_agents W self round = (ev, inr (registry, agent_prompt)) ->
  registry !! n = Some card ->
  card_name card = n
  /\ exists url, In url (urls_of self) /\ get_agent_card W round url = inr card.
Proof.
  unfold get_agents, urls_of. intros G L.
  destruct (agent_urls self) as [[|url urls]|];
    try (injection G as _ <- _; now rewrite lookup_empty in L).
  unfold tell, lift in G. rewrite bind_inr in G.
  destruct (gather (map (get_agent_card W round) (url :: urls)))
    as [e|cards] eqn:Ga; [discriminate|].
  simpl in G. injection G as _ <- _.
  apply (proj1 (gather_ok _ _)) in Ga.
  assert (last_named n cards = Some card) as F
    by (now rewrite <- registry_of_last_named).
  unfold last_named in F. apply List.find_some in F as [I E].
  apply String.eqb_eq in E. split; [exact E|].
  apply in_rev in I.
  assert (In (inr card) (map (get_agent_card W round) (url :: urls))) as I'
    by (rewrite Ga; now apply in_map).
  apply in_map_iff in I' as (u & Eu & Iu). simpl default. eauto.
Qed.

Lemma directory_keys_are_names_witness :
  card_name Cases.mirror_card = "echo"
  /\ exists url, In url (urls_of Cases.two_urls)
                 /\ get_agent_card Cases.mirrored 0 url = inr Cases.mirror_card.
Proof.
  apply (directory_keys_are_names Cases.mirrored Cases.two_urls 0
           (map CardRequest [Demo.echo_url; Cases.mirror_url])
           (registry_of [Demo.echo_card; Cases.mirror_card]) "echo, echo" "echo"
           Cases.mirror_card);
    vm_compute; reflexivity.
Defined.
